(** * Verification of the webhook receiver (src/main.go)

    A shallow embedding of the in-memory [WebhookStore] (Add, GetAll,
    GetByID, Clear), of the JSON decoding used by [webhookHandler], and of
    the two HTTP handlers [webhookHandler] and [getWebhookByIDHandler].
    Go's [int] is 64 bits wide (the Docker image builds for amd64); it is
    modelled as [Z] with the two's-complement wrap-around written out. *)

From Stdlib Require Import List ZArith String Ascii Bool Lia.
From Stdlib Require Import Sorting.Sorted.
Import ListNotations.
Open Scope Z_scope.
Set Warnings "-register-all".

(** ** Go's 64-bit [int] *)

Definition int_min : Z := - 2 ^ 63.
Definition int_max : Z := 2 ^ 63 - 1.

(** Two's-complement wrap-around of a 64-bit [int]. *)
Definition wrap (z : Z) : Z := (z + 2 ^ 63) mod 2 ^ 64 - 2 ^ 63.

Definition in_int_range (z : Z) : Prop := int_min <= z <= int_max.

(** ** JSON values: what [json.Decoder.Decode] builds in an [interface{}] *)

(** Numbers are kept as the exact decimal [m * 10^e] of their literal
    (Go converts them to [float64]; only the overflow check of that
    conversion is modelled, see [float64_overflows]); strings keep the
    text between the quotes; objects keep their members in source order. *)
Inductive json : Type :=
| JNull
| JBool (b : bool)
| JNumber (m : Z) (e : Z)
| JString (s : list ascii)
| JArray (l : list json)
| JObject (members : list (list ascii * json)).

(** ** The store *)

(** [StoredWebhook]; the [time.Time] of receipt is an opaque clock value. *)
Record StoredWebhook : Type := mkStoredWebhook {
  ID : Z;
  Payload : json;
  Received : Z
}.

(** The zero value [StoredWebhook{}]. *)
Definition zeroWebhook : StoredWebhook :=
  {| ID := 0; Payload := JNull; Received := 0 |}.

(** [WebhookStore] without its mutex (see the concurrency notes below). *)
Record WebhookStore : Type := mkWebhookStore {
  webhooks : list StoredWebhook;
  nextID : Z;
  maxSize : Z
}.

(** The global [store] of main.go. *)
Definition store : WebhookStore :=
  {| webhooks := []; nextID := 1; maxSize := 5 |}.

(** [func (ws *WebhookStore) Add(payload interface{}) int]; [now] is the
    value of [time.Now()]. Returns the new store and [currentID]. *)
Definition Add (ws : WebhookStore) (payload : json) (now : Z) : WebhookStore * Z :=
  let storedWebhook := {| ID := nextID ws; Payload := payload; Received := now |} in
  let hooks := webhooks ws ++ [storedWebhook] in
  let currentID := nextID ws in
  let next := wrap (nextID ws + 1) in
  let hooks' := if Z.of_nat (List.length hooks) >? maxSize ws then tl hooks else hooks in
  ({| webhooks := hooks'; nextID := next; maxSize := maxSize ws |}, currentID).

(** [func (ws *WebhookStore) GetAll() []StoredWebhook]: [result[i] = ws.webhooks[j]]
    with [j = len - 1 - i], for [i] from [0] to [len - 1]. *)
Definition GetAll (ws : WebhookStore) : list StoredWebhook :=
  let n := List.length (webhooks ws) in
  map (fun i => nth (n - 1 - i) (webhooks ws) zeroWebhook) (seq 0 n).

(** The [for _, webhook := range ws.webhooks] loop of [GetByID]. *)
Fixpoint find_by_id (l : list StoredWebhook) (id : Z) : StoredWebhook * bool :=
  match l with
  | [] => (zeroWebhook, false)
  | w :: l' => if ID w =? id then (w, true) else find_by_id l' id
  end.

(** [func (ws *WebhookStore) GetByID(id int) (StoredWebhook, bool)]. *)
Definition GetByID (ws : WebhookStore) (id : Z) : StoredWebhook * bool :=
  find_by_id (webhooks ws) id.

(** [func (ws *WebhookStore) Clear() int]. *)
Definition Clear (ws : WebhookStore) : WebhookStore * Z :=
  let count := Z.of_nat (List.length (webhooks ws)) in
  ({| webhooks := []; nextID := 1; maxSize := maxSize ws |}, count).

(** ** Sequences of store operations *)

Inductive op : Type :=
| OpAdd (payload : json) (now : Z)
| OpGetAll
| OpGetByID (id : Z)
| OpClear.

Inductive result : Type :=
| RId (id : Z)
| RAll (l : list StoredWebhook)
| RFound (w : StoredWebhook) (found : bool)
| RCount (n : Z).

(** Each method runs under the store's mutex, so one call is one step. *)
Definition exec (ws : WebhookStore) (o : op) : WebhookStore * result :=
  match o with
  | OpAdd p now => let '(ws', id) := Add ws p now in (ws', RId id)
  | OpGetAll => (ws, RAll (GetAll ws))
  | OpGetByID id => let '(w, b) := GetByID ws id in (ws, RFound w b)
  | OpClear => let '(ws', n) := Clear ws in (ws', RCount n)
  end.

Fixpoint run (ws : WebhookStore) (ops : list op) : WebhookStore * list result :=
  match ops with
  | [] => (ws, [])
  | o :: ops' =>
      let '(ws1, r) := exec ws o in
      let '(ws2, rs) := run ws1 ops' in
      (ws2, r :: rs)
  end.

(** The states the global [store] can be in. *)
Definition reachable (ws : WebhookStore) : Prop :=
  exists ops, ws = fst (run store ops).

(** ** JSON decoding: [json.NewDecoder(r.Body).Decode(&payload)]

    [Decode] scans exactly one JSON value from the stream (after optional
    white space) and stops at its end: bytes that follow the value are left
    in the decoder's buffer and are not examined.  The scanner limits
    nesting to [maxNestingDepth] open arrays and objects.  The value is then
    unmarshalled into an [interface{}]; a number literal whose [float64]
    conversion overflows makes [Decode] return an error. *)

Definition maxNestingDepth : Z := 10000.

Definition quote : ascii := "034"%char.
Definition backslash : ascii := "092"%char.

(** The letters that may follow a backslash in a string literal. *)
Definition escape_letters : list ascii :=
  [quote; backslash; "/"; "b"; "f"; "n"; "r"; "t"]%char.

Definition is_space (c : ascii) : bool :=
  Ascii.eqb c " "%char || Ascii.eqb c "009"%char
  || Ascii.eqb c "010"%char || Ascii.eqb c "013"%char.

Definition is_digit (c : ascii) : bool :=
  (48 <=? nat_of_ascii c)%nat && (nat_of_ascii c <=? 57)%nat.

Definition is_hex (c : ascii) : bool :=
  is_digit c
  || ((97 <=? nat_of_ascii c)%nat && (nat_of_ascii c <=? 102)%nat)
  || ((65 <=? nat_of_ascii c)%nat && (nat_of_ascii c <=? 70)%nat).

Definition digit_value (c : ascii) : Z := Z.of_nat (nat_of_ascii c - 48).

Fixpoint skip_ws (s : list ascii) : list ascii :=
  match s with
  | c :: r => if is_space c then skip_ws r else s
  | [] => []
  end.

(** The longest prefix of decimal digits, and the rest. *)
Fixpoint span_digits (s : list ascii) : list ascii * list ascii :=
  match s with
  | c :: r =>
      if is_digit c then let '(d, r') := span_digits r in (c :: d, r') else ([], s)
  | [] => ([], [])
  end.

Definition digits_value (d : list ascii) : Z :=
  fold_left (fun acc c => acc * 10 + digit_value c) d 0.

Fixpoint strip_prefix (p s : list ascii) : option (list ascii) :=
  match p, s with
  | [], _ => Some s
  | a :: p', c :: s' => if Ascii.eqb a c then strip_prefix p' s' else None
  | _ :: _, [] => None
  end.

(** A number literal ([stateNeg], [state0], [state1], [stateDot], [stateDot0],
    [stateE], [stateESign], [stateE0] of encoding/json's scanner), read as
    [m * 10^e]; the literal ends at the first byte its grammar cannot take. *)
Definition scan_number (s : list ascii) : option (Z * Z * list ascii) :=
  let '(neg, s1) :=
    match s with
    | c :: r => if Ascii.eqb c "-"%char then (true, r) else (false, s)
    | [] => (false, [])
    end in
  let int_part :=
    match s1 with
    | c :: r =>
        if Ascii.eqb c "0"%char then Some ([c], r)
        else if is_digit c then Some (span_digits s1)
        else None
    | [] => None
    end in
  match int_part with
  | None => None
  | Some (intd, s2) =>
      let frac :=
        match s2 with
        | c :: r =>
            if Ascii.eqb c "."%char then
              let '(fd, r') := span_digits r in
              match fd with [] => None | _ => Some (fd, r') end
            else Some ([], s2)
        | [] => Some ([], s2)
        end in
      match frac with
      | None => None
      | Some (fracd, s3) =>
          let expo :=
            match s3 with
            | c :: r =>
                if Ascii.eqb c "e"%char || Ascii.eqb c "E"%char then
                  let '(eneg, r1) :=
                    match r with
                    | c' :: r' =>
                        if Ascii.eqb c' "-"%char then (true, r')
                        else if Ascii.eqb c' "+"%char then (false, r')
                        else (false, r)
                    | [] => (false, r)
                    end in
                  let '(ed, r2) := span_digits r1 in
                  match ed with
                  | [] => None
                  | _ => Some ((if eneg then - digits_value ed else digits_value ed), r2)
                  end
                else Some (0, s3)
            | [] => Some (0, s3)
            end in
          match expo with
          | None => None
          | Some (ev, s4) =>
              let mag := digits_value (intd ++ fracd) in
              Some ((if neg then - mag else mag),
                    ev - Z.of_nat (List.length fracd), s4)
          end
      end
  end.

(** The body of a string literal, after its opening quote: control bytes are
    rejected, and a backslash is followed by one of the eight escape letters
    (quote, backslash, slash, b, f, n, r, t) or by [u] and four hex digits.
    Returns the text between the quotes and the rest. *)
Fixpoint scan_string (s : list ascii) : option (list ascii * list ascii) :=
  match s with
  | [] => None
  | c :: r =>
      if (nat_of_ascii c <? 32)%nat then None
      else if Ascii.eqb c quote then Some ([], r)
      else if Ascii.eqb c backslash then
        match r with
        | e :: r' =>
            if existsb (Ascii.eqb e) escape_letters then
              match scan_string r' with
              | Some (t, rest) => Some (c :: e :: t, rest)
              | None => None
              end
            else if Ascii.eqb e "u"%char then
              match r' with
              | h1 :: h2 :: h3 :: h4 :: r'' =>
                  if is_hex h1 && is_hex h2 && is_hex h3 && is_hex h4 then
                    match scan_string r'' with
                    | Some (t, rest) => Some (c :: e :: h1 :: h2 :: h3 :: h4 :: t, rest)
                    | None => None
                    end
                  else None
              | _ => None
              end
            else None
        | [] => None
        end
      else
        match scan_string r with
        | Some (t, rest) => Some (c :: t, rest)
        | None => None
        end
  end.

(** One JSON value, after optional white space; [depth] counts the arrays and
    objects already open. [fuel] bounds the recursion (see [decode]). *)
Fixpoint scan_value (fuel : nat) (depth : Z) (s : list ascii)
  : option (json * list ascii) :=
  match fuel with
  | O => None
  | S f =>
      match skip_ws s with
      | [] => None
      | c :: r =>
          if Ascii.eqb c "{"%char then
            if maxNestingDepth <? depth + 1 then None else scan_object f (depth + 1) r
          else if Ascii.eqb c "["%char then
            if maxNestingDepth <? depth + 1 then None else scan_array f (depth + 1) r
          else if Ascii.eqb c quote then
            match scan_string r with
            | Some (t, rest) => Some (JString t, rest)
            | None => None
            end
          else if Ascii.eqb c "t"%char then
            match strip_prefix (list_ascii_of_string "rue") r with
            | Some rest => Some (JBool true, rest)
            | None => None
            end
          else if Ascii.eqb c "f"%char then
            match strip_prefix (list_ascii_of_string "alse") r with
            | Some rest => Some (JBool false, rest)
            | None => None
            end
          else if Ascii.eqb c "n"%char then
            match strip_prefix (list_ascii_of_string "ull") r with
            | Some rest => Some (JNull, rest)
            | None => None
            end
          else if Ascii.eqb c "-"%char || is_digit c then
            match scan_number (c :: r) with
            | Some (m, e, rest) => Some (JNumber m e, rest)
            | None => None
            end
          else None
      end
  end
(** After [[]: an empty array or its elements. *)
with scan_array (fuel : nat) (depth : Z) (s : list ascii)
  : option (json * list ascii) :=
  match fuel with
  | O => None
  | S f =>
      match skip_ws s with
      | c :: r => if Ascii.eqb c "]"%char then Some (JArray [], r)
                  else scan_elems f depth s []
      | [] => None
      end
  end
(** An element, then a comma and more elements, or the closing bracket. *)
with scan_elems (fuel : nat) (depth : Z) (s : list ascii) (acc : list json)
  : option (json * list ascii) :=
  match fuel with
  | O => None
  | S f =>
      match scan_value f depth s with
      | None => None
      | Some (v, r) =>
          match skip_ws r with
          | c :: r' =>
              if Ascii.eqb c ","%char then scan_elems f depth r' (v :: acc)
              else if Ascii.eqb c "]"%char then Some (JArray (rev (v :: acc)), r')
              else None
          | [] => None
          end
      end
  end
(** After [{]: an empty object or its members. *)
with scan_object (fuel : nat) (depth : Z) (s : list ascii)
  : option (json * list ascii) :=
  match fuel with
  | O => None
  | S f =>
      match skip_ws s with
      | c :: r => if Ascii.eqb c "}"%char then Some (JObject [], r)
                  else scan_members f depth s []
      | [] => None
      end
  end
(** A member (string key, colon, value), then a comma and more members, or
    the closing brace. *)
with scan_members (fuel : nat) (depth : Z) (s : list ascii)
  (acc : list (list ascii * json)) : option (json * list ascii) :=
  match fuel with
  | O => None
  | S f =>
      match skip_ws s with
      | q :: r =>
          if Ascii.eqb q quote then
            match scan_string r with
            | None => None
            | Some (k, r1) =>
                match skip_ws r1 with
                | col :: r2 =>
                    if Ascii.eqb col ":"%char then
                      match scan_value f depth r2 with
                      | None => None
                      | Some (v, r3) =>
                          match skip_ws r3 with
                          | c :: r4 =>
                              if Ascii.eqb c ","%char then
                                scan_members f depth r4 ((k, v) :: acc)
                              else if Ascii.eqb c "}"%char then
                                Some (JObject (rev ((k, v) :: acc)), r4)
                              else None
                          | [] => None
                          end
                      end
                    else None
                | [] => None
                end
            end
          else None
      | [] => None
      end
  end.

(** [strconv.ParseFloat(s, 64)] fails with [ErrRange] exactly when the
    literal rounds to an infinity: its magnitude is at least the midpoint
    [2^1024 - 2^970] between the largest finite [float64] and [2^1024]. *)
Definition float64_overflows (m e : Z) : bool :=
  let bound := 2 ^ 1024 - 2 ^ 970 in
  if 0 <=? e then bound <=? Z.abs m * 10 ^ e
  else bound * 10 ^ (- e) <=? Z.abs m.

(** [convertNumber] on every number of the decoded value. *)
Fixpoint has_overflow (v : json) : bool :=
  match v with
  | JNumber m e => float64_overflows m e
  | JArray l => existsb has_overflow l
  | JObject kvs => existsb (fun kv => has_overflow (snd kv)) kvs
  | _ => false
  end.

(** [json.NewDecoder(body).Decode(&payload)]: [None] is a non-nil error.
    Every call of [scan_value], [scan_array], ... except the entry ones
    consumes a byte first, so [3 * len + 3] units of fuel are never
    exhausted before the input is. *)
Definition decode (body : list ascii) : option json :=
  match scan_value (3 * List.length body + 3) 0 body with
  | None => None
  | Some (v, _) => if has_overflow v then None else Some v
  end.

(** ** HTTP handlers *)

(** What a handler writes: [http.Error]'s text, the [map] encoded by
    [webhookHandler] on success, or the encoded [StoredWebhook]. *)
Inductive ResponseBody : Type :=
| BodyError (msg : string)
| BodyReceived (message : string) (id : Z)
| BodyWebhook (w : StoredWebhook).

Record Response : Type := mkResponse {
  status : Z;
  body : ResponseBody
}.

Definition StatusOK : Z := 200.
Definition StatusBadRequest : Z := 400.
Definition StatusNotFound : Z := 404.
Definition StatusMethodNotAllowed : Z := 405.

(** [webhookHandler] on the global store [ws]; [now] is [time.Now()] inside
    [Add]. The [fmt.Printf] logging is not modelled. *)
Definition webhookHandler (ws : WebhookStore) (method : string)
  (reqBody : list ascii) (now : Z) : Response * WebhookStore :=
  if negb (String.eqb method "POST") then
    (mkResponse StatusMethodNotAllowed (BodyError "Method not allowed"), ws)
  else
    match decode reqBody with
    | None => (mkResponse StatusBadRequest (BodyError "Bad request"), ws)
    | Some payload =>
        let '(ws', assignedID) := Add ws payload now in
        (mkResponse StatusOK
           (BodyReceived "Webhook received and stored successfully" assignedID), ws')
    end.

(** [strconv.Atoi] with a 64-bit [int]: an optional sign, then one or more
    decimal digits; a value outside the [int] range is an [ErrRange]
    error. (The fast path for short strings and the [ParseInt] path agree
    on this.) *)
Definition Atoi (s : list ascii) : option Z :=
  let '(neg, ds) :=
    match s with
    | c :: r =>
        if Ascii.eqb c "-"%char then (true, r)
        else if Ascii.eqb c "+"%char then (false, r)
        else (false, s)
    | [] => (false, [])
    end in
  match ds with
  | [] => None
  | _ =>
      if forallb is_digit ds then
        let n := digits_value ds in
        let v := if neg then - n else n in
        if (int_min <=? v) && (v <=? int_max) then Some v else None
      else None
  end.

(** [getWebhookByIDHandler] on the global store [ws]; [path] is [r.URL.Path].
    It only reads the store. *)
Definition getWebhookByIDHandler (ws : WebhookStore) (method : string)
  (path : list ascii) : Response :=
  if negb (String.eqb method "GET") then
    mkResponse StatusMethodNotAllowed (BodyError "Method not allowed")
  else if (List.length path <? 10)%nat then
    mkResponse StatusBadRequest (BodyError "Invalid webhook ID")
  else
    let idStr := skipn 10 path in
    match Atoi idStr with
    | None => mkResponse StatusBadRequest (BodyError "Invalid webhook ID")
    | Some id =>
        let '(webhook, found) := GetByID ws id in
        if negb found then mkResponse StatusNotFound (BodyError "Webhook not found")
        else mkResponse StatusOK (BodyWebhook webhook)
    end.

(** The prefix under which [getWebhookByIDHandler] is registered. *)
Definition webhooks_prefix : list ascii := list_ascii_of_string "/webhooks/".

(** ** Valid JSON text, after RFC 8259 (the spec's "valid JSON")

    This grammar follows the RFC, not the Go decoder; it is compared with
    [decode] in the theorems about [webhookHandler]. Bytes of non-ASCII
    characters are admitted inside strings without checking their UTF-8
    encoding. *)

Definition rfc_ws_char (c : ascii) : Prop :=
  c = " "%char \/ c = "009"%char \/ c = "010"%char \/ c = "013"%char.

Definition rfc_ws (s : list ascii) : Prop := Forall rfc_ws_char s.

Definition rfc_digit (c : ascii) : Prop := (48 <= nat_of_ascii c <= 57)%nat.

Definition rfc_digits1 (s : list ascii) : Prop := s <> [] /\ Forall rfc_digit s.

Definition rfc_int (s : list ascii) : Prop :=
  s = ["0"%char]
  \/ exists d ds, s = d :: ds /\ (49 <= nat_of_ascii d <= 57)%nat /\ Forall rfc_digit ds.

Definition rfc_frac (s : list ascii) : Prop :=
  s = [] \/ exists ds, s = "."%char :: ds /\ rfc_digits1 ds.

Definition rfc_exp (s : list ascii) : Prop :=
  s = []
  \/ exists e sg ds, s = e :: sg ++ ds /\ (e = "e"%char \/ e = "E"%char)
       /\ (sg = [] \/ sg = ["+"%char] \/ sg = ["-"%char]) /\ rfc_digits1 ds.

Definition rfc_number (s : list ascii) : Prop :=
  exists m i f e, s = m ++ i ++ f ++ e /\ (m = [] \/ m = ["-"%char])
    /\ rfc_int i /\ rfc_frac f /\ rfc_exp e.

Definition rfc_hexdig (c : ascii) : Prop := is_hex c = true.

Inductive rfc_chars : list ascii -> Prop :=
| rfc_chars_nil : rfc_chars []
| rfc_chars_plain (c : ascii) (s : list ascii) :
    (32 <= nat_of_ascii c)%nat -> c <> quote -> c <> backslash ->
    rfc_chars s -> rfc_chars (c :: s)
| rfc_chars_escape (e : ascii) (s : list ascii) :
    In e escape_letters -> rfc_chars s ->
    rfc_chars (backslash :: e :: s)
| rfc_chars_unicode (h1 h2 h3 h4 : ascii) (s : list ascii) :
    rfc_hexdig h1 -> rfc_hexdig h2 -> rfc_hexdig h3 -> rfc_hexdig h4 -> rfc_chars s ->
    rfc_chars (backslash :: "u"%char :: h1 :: h2 :: h3 :: h4 :: s).

Definition rfc_string (s : list ascii) : Prop :=
  exists body, s = quote :: body ++ [quote] /\ rfc_chars body.

Inductive rfc_value : list ascii -> Prop :=
| rfc_false : rfc_value (list_ascii_of_string "false")
| rfc_null : rfc_value (list_ascii_of_string "null")
| rfc_true : rfc_value (list_ascii_of_string "true")
| rfc_num (s : list ascii) : rfc_number s -> rfc_value s
| rfc_str (s : list ascii) : rfc_string s -> rfc_value s
| rfc_array_empty (w : list ascii) : rfc_ws w -> rfc_value ("["%char :: w ++ ["]"%char])
| rfc_array (s : list ascii) : rfc_elements s -> rfc_value ("["%char :: s ++ ["]"%char])
| rfc_object_empty (w : list ascii) : rfc_ws w -> rfc_value ("{"%char :: w ++ ["}"%char])
| rfc_object (s : list ascii) : rfc_members s -> rfc_value ("{"%char :: s ++ ["}"%char])
with rfc_elements : list ascii -> Prop :=
| rfc_elements_one (a v b : list ascii) :
    rfc_ws a -> rfc_value v -> rfc_ws b -> rfc_elements (a ++ v ++ b)
| rfc_elements_cons (a v b s : list ascii) :
    rfc_ws a -> rfc_value v -> rfc_ws b -> rfc_elements s ->
    rfc_elements (a ++ v ++ b ++ ","%char :: s)
with rfc_members : list ascii -> Prop :=
| rfc_members_one (a k b c v d : list ascii) :
    rfc_ws a -> rfc_string k -> rfc_ws b -> rfc_ws c -> rfc_value v -> rfc_ws d ->
    rfc_members (a ++ k ++ b ++ ":"%char :: c ++ v ++ d)
| rfc_members_cons (a k b c v d s : list ascii) :
    rfc_ws a -> rfc_string k -> rfc_ws b -> rfc_ws c -> rfc_value v -> rfc_ws d ->
    rfc_members s -> rfc_members (a ++ k ++ b ++ ":"%char :: c ++ v ++ d ++ ","%char :: s).

(** A JSON text: one value with optional white space around it. *)
Definition json_text (s : list ascii) : Prop :=
  exists a v b, s = a ++ v ++ b /\ rfc_ws a /\ rfc_value v /\ rfc_ws b.

(** ** The store invariant and counting *)

(** The IDs of the stored entries, expressed from the counter: the entries
    are the last [len] ones added, with consecutive (wrapped) IDs ending
    just below [nextID]. *)
Definition window_ids (ws : WebhookStore) : list Z :=
  let n := List.length (webhooks ws) in
  map (fun i => wrap (nextID ws - Z.of_nat n + Z.of_nat i)) (seq 0 n).

Definition window (ws : WebhookStore) : Prop :=
  maxSize ws = 5
  /\ (List.length (webhooks ws) <= 5)%nat
  /\ in_int_range (nextID ws)
  /\ map ID (webhooks ws) = window_ids ws
  /\ (webhooks ws = [] -> nextID ws = 1).

Fixpoint count_adds (ops : list op) : nat :=
  match ops with
  | [] => O
  | OpAdd _ _ :: ops' => S (count_adds ops')
  | _ :: ops' => count_adds ops'
  end.

Fixpoint add_ids (rs : list result) : list Z :=
  match rs with
  | [] => []
  | RId id :: rs' => id :: add_ids rs'
  | _ :: rs' => add_ids rs'
  end.

Definition no_clear (ops : list op) : Prop := ~ In OpClear ops.

(** [n] Add calls with the payloads and clock values [ps]. *)
Definition adds (ps : list (json * Z)) : list op :=
  map (fun pt => OpAdd (fst pt) (snd pt)) ps.

(** ** Helpers for the JSON grammar *)

Definition ends_in (c : ascii) (s : list ascii) : Prop := exists p, s = p ++ [c].

(** ** The other two handlers *)

(** What [getWebhooksHandler] and [clearWebhooksHandler] write: the
    [http.Error] text, the encoded [map] with [count] and [webhooks], or the
    encoded [map] with [message] and [cleared_count]. *)
Inductive HandlerBody : Type :=
| HError (msg : string)
| HList (count : Z) (hooks : list StoredWebhook)
| HCleared (message : string) (cleared_count : Z).

Record HandlerResponse : Type := mkHandlerResponse {
  hstatus : Z;
  hbody : HandlerBody
}.

(** [getWebhooksHandler] on the global store [ws]; with no [WriteHeader]
    call, the first write sends 200. It only reads the store. *)
Definition getWebhooksHandler (ws : WebhookStore) (method : string) : HandlerResponse :=
  if negb (String.eqb method "GET") then
    mkHandlerResponse StatusMethodNotAllowed (HError "Method not allowed")
  else
    let hooks := GetAll ws in
    mkHandlerResponse StatusOK (HList (Z.of_nat (List.length hooks)) hooks).

(** [clearWebhooksHandler] on the global store [ws]; the request method is
    not looked at. The [fmt.Printf] logging is not modelled. *)
Definition clearWebhooksHandler (ws : WebhookStore) (method : string)
  : HandlerResponse * WebhookStore :=
  let '(ws', clearedCount) := Clear ws in
  (mkHandlerResponse StatusOK
     (HCleared "All webhooks cleared successfully" clearedCount), ws').

(** ** Encoding the reply of [webhookHandler] *)

(** The decimal digits of [u >= 0], most significant first, prepended to
    [acc] ([formatBits] of strconv); [fuel] bounds the number of digits. *)
Fixpoint utoa_aux (fuel : nat) (u : Z) (acc : list ascii) : list ascii :=
  match fuel with
  | O => acc
  | S f =>
      let acc' := ascii_of_nat (48 + Z.to_nat (u mod 10)) :: acc in
      if u <? 10 then acc' else utoa_aux f (u / 10) acc'
  end.

(** [strconv.AppendInt(b, i, 10)], which [encoding/json] uses for an [int];
    a 64-bit magnitude has at most 20 digits. *)
Definition itoa (i : Z) : list ascii :=
  if i <? 0 then "-"%char :: utoa_aux 20 (- i) [] else utoa_aux 20 i [].

Definition newline : ascii := "010"%char.

(** [json.NewEncoder(w).Encode(response)] for the reply of [webhookHandler]:
    the map's keys in sorted order, then a newline. The message is the
    constant of the source, which has no byte the encoder escapes. *)
Definition encodeReceived (id : Z) : list ascii :=
  ["{"%char; quote] ++ list_ascii_of_string "id" ++ [quote; ":"%char] ++ itoa id
  ++ [","%char; quote] ++ list_ascii_of_string "message" ++ [quote; ":"%char; quote]
  ++ list_ascii_of_string "Webhook received and stored successfully"
  ++ [quote; "}"%char; newline].

(** ** The payload as a Go value: [getStringFromPayload], [getInt64FromPayload] *)

(** A [float64] equal to [(-1)^fneg * fmant * 2^fexp]. *)
Record float64 : Type := mkFloat64 {
  fneg : bool;
  fmant : Z;
  fexp : Z
}.

(** The dynamic types an [interface{}] holds that the two helpers tell
    apart; a [map[string]interface{}] is an association list with distinct
    keys. *)
Inductive GoValue : Type :=
| GNil
| GBool (b : bool)
| GInt64 (v : Z)
| GInt (v : Z)
| GFloat64 (f : float64)
| GString (s : list ascii)
| GSlice (l : list GoValue)
| GMap (m : list (list ascii * GoValue)).

(** Equality of Go strings (byte sequences). *)
Fixpoint bytes_eqb (a b : list ascii) : bool :=
  match a, b with
  | [], [] => true
  | c :: a', d :: b' => Ascii.eqb c d && bytes_eqb a' b'
  | _, _ => false
  end.

(** [v, exists := m[k]]. *)
Fixpoint map_lookup (k : list ascii) (m : list (list ascii * GoValue)) : option GoValue :=
  match m with
  | [] => None
  | (k', v) :: m' => if bytes_eqb k k' then Some v else map_lookup k m'
  end.

(** [m[k] = v]: the value of an existing key is replaced. *)
Definition map_store (k : list ascii) (v : GoValue) (m : list (list ascii * GoValue))
  : list (list ascii * GoValue) :=
  (k, v) :: filter (fun kv => negb (bytes_eqb k (fst kv))) m.

Definition byte_val (c : ascii) : Z := Z.of_nat (nat_of_ascii c).

Definition byte_of (z : Z) : ascii := ascii_of_nat (Z.to_nat z).

Definition byte_in (lo hi : Z) (c : ascii) : bool := (lo <=? byte_val c) && (byte_val c <=? hi).

(** [utf8.RuneError], U+FFFD. *)
Definition RuneError : Z := 65533.

(** [utf8.DecodeRune]: the first rune of [s] and its size in bytes; an
    invalid or incomplete sequence is [RuneError] of size 1. *)
Definition decode_rune (s : list ascii) : Z * nat :=
  match s with
  | [] => (RuneError, 0%nat)
  | p0 :: r =>
      let x := byte_val p0 in
      if x <? 128 then (x, 1%nat)
      else
        let accept :=
          if (194 <=? x) && (x <=? 223) then Some (2%nat, 128, 191)
          else if x =? 224 then Some (3%nat, 160, 191)
          else if (225 <=? x) && (x <=? 236) then Some (3%nat, 128, 191)
          else if x =? 237 then Some (3%nat, 128, 159)
          else if (238 <=? x) && (x <=? 239) then Some (3%nat, 128, 191)
          else if x =? 240 then Some (4%nat, 144, 191)
          else if (241 <=? x) && (x <=? 243) then Some (4%nat, 128, 191)
          else if x =? 244 then Some (4%nat, 128, 143)
          else None in
        match accept, r with
        | Some (sz, lo, hi), b1 :: r1 =>
            if negb (byte_in lo hi b1) then (RuneError, 1%nat)
            else if (sz =? 2)%nat then
              (Z.lor (Z.shiftl (Z.land x 31) 6) (Z.land (byte_val b1) 63), 2%nat)
            else
              match r1 with
              | b2 :: r2 =>
                  if negb (byte_in 128 191 b2) then (RuneError, 1%nat)
                  else if (sz =? 3)%nat then
                    (Z.lor (Z.lor (Z.shiftl (Z.land x 15) 12)
                                  (Z.shiftl (Z.land (byte_val b1) 63) 6))
                           (Z.land (byte_val b2) 63), 3%nat)
                  else
                    match r2 with
                    | b3 :: _ =>
                        if negb (byte_in 128 191 b3) then (RuneError, 1%nat)
                        else
                          (Z.lor (Z.lor (Z.shiftl (Z.land x 7) 18)
                                        (Z.shiftl (Z.land (byte_val b1) 63) 12))
                                 (Z.lor (Z.shiftl (Z.land (byte_val b2) 63) 6)
                                        (Z.land (byte_val b3) 63)), 4%nat)
                    | [] => (RuneError, 1%nat)
                    end
              | [] => (RuneError, 1%nat)
              end
        | _, _ => (RuneError, 1%nat)
        end
  end.

(** [utf8.EncodeRune]: a rune outside the Unicode range or a surrogate is
    written as [RuneError]. *)
Definition encode_rune (r : Z) : list ascii :=
  if (0 <=? r) && (r <=? 127) then [byte_of r]
  else if (0 <=? r) && (r <=? 2047) then
    [byte_of (Z.lor 192 (Z.shiftr r 6)); byte_of (Z.lor 128 (Z.land r 63))]
  else
    let r := if (r <? 0) || (1114111 <? r) || ((55296 <=? r) && (r <=? 57343))
             then RuneError else r in
    if r <=? 65535 then
      [byte_of (Z.lor 224 (Z.shiftr r 12));
       byte_of (Z.lor 128 (Z.land (Z.shiftr r 6) 63));
       byte_of (Z.lor 128 (Z.land r 63))]
    else
      [byte_of (Z.lor 240 (Z.shiftr r 18));
       byte_of (Z.lor 128 (Z.land (Z.shiftr r 12) 63));
       byte_of (Z.lor 128 (Z.land (Z.shiftr r 6) 63));
       byte_of (Z.lor 128 (Z.land r 63))].

Definition hex_val (c : ascii) : option Z :=
  let x := byte_val c in
  if (48 <=? x) && (x <=? 57) then Some (x - 48)
  else if (97 <=? x) && (x <=? 102) then Some (x - 97 + 10)
  else if (65 <=? x) && (x <=? 70) then Some (x - 65 + 10)
  else None.

(** [getu4] of encoding/json: the value of a [\uXXXX] escape at the head
    of [s], or -1. *)
Definition getu4 (s : list ascii) : Z :=
  match s with
  | b :: u :: h1 :: h2 :: h3 :: h4 :: _ =>
      if Ascii.eqb b backslash && Ascii.eqb u "u"%char then
        match hex_val h1, hex_val h2, hex_val h3, hex_val h4 with
        | Some d1, Some d2, Some d3, Some d4 => ((d1 * 16 + d2) * 16 + d3) * 16 + d4
        | _, _, _, _ => -1
        end
      else -1
  | _ => -1
  end.

Definition is_surrogate (r : Z) : bool := (55296 <=? r) && (r <? 57344).

(** [utf16.DecodeRune]. *)
Definition utf16_decode (r1 r2 : Z) : Z :=
  if (55296 <=? r1) && (r1 <? 56320) && (56320 <=? r2) && (r2 <? 57344)
  then Z.lor (Z.shiftl (r1 - 55296) 10) (r2 - 56320) + 65536
  else RuneError.

(** The slow loop of [unquoteBytes] on the rest of a string literal's
    body; [None] is [ok = false]. Each round consumes at least one byte,
    so [fuel = len s] suffices. *)
Fixpoint unquote_loop (fuel : nat) (s : list ascii) : option (list ascii) :=
  match fuel with
  | O => Some []
  | S f =>
      match s with
      | [] => Some []
      | c :: r =>
          if Ascii.eqb c backslash then
            match r with
            | [] => None
            | e :: r' =>
                let put b := option_map (cons b) (unquote_loop f r') in
                if Ascii.eqb e quote || Ascii.eqb e backslash || Ascii.eqb e "/"%char
                   || Ascii.eqb e "'"%char then put e
                else if Ascii.eqb e "b"%char then put "008"%char
                else if Ascii.eqb e "f"%char then put "012"%char
                else if Ascii.eqb e "n"%char then put "010"%char
                else if Ascii.eqb e "r"%char then put "013"%char
                else if Ascii.eqb e "t"%char then put "009"%char
                else if Ascii.eqb e "u"%char then
                  let rr := getu4 s in
                  if rr <? 0 then None
                  else
                    let s6 := skipn 6 s in
                    if is_surrogate rr then
                      let dec := utf16_decode rr (getu4 s6) in
                      if negb (dec =? RuneError) then
                        option_map (app (encode_rune dec)) (unquote_loop f (skipn 6 s6))
                      else option_map (app (encode_rune RuneError)) (unquote_loop f s6)
                    else option_map (app (encode_rune rr)) (unquote_loop f s6)
                else None
            end
          else if Ascii.eqb c quote || (byte_val c <? 32) then None
          else if byte_val c <? 128 then option_map (cons c) (unquote_loop f r)
          else
            let '(rr, size) := decode_rune s in
            option_map (app (encode_rune rr)) (unquote_loop f (skipn size s))
      end
  end.

(** The fast path of [unquoteBytes]: how many leading bytes need no
    rewriting. *)
Fixpoint unquote_scan (fuel : nat) (s : list ascii) : nat :=
  match fuel, s with
  | S f, c :: r =>
      if Ascii.eqb c backslash || Ascii.eqb c quote || (byte_val c <? 32) then O
      else if byte_val c <? 128 then S (unquote_scan f r)
      else
        let '(rr, size) := decode_rune s in
        if (rr =? RuneError) && (size =? 1)%nat then O
        else (size + unquote_scan f (skipn size s))%nat
  | _, _ => O
  end.

(** [unquoteBytes] on the body [s] of a string literal (its quotes
    stripped): escapes are decoded and the bytes are coerced to well-formed
    UTF-8. *)
Definition unquote (s : list ascii) : option (list ascii) :=
  let r := unquote_scan (List.length s) s in
  if (r =? List.length s)%nat then Some s
  else option_map (app (firstn r s)) (unquote_loop (List.length s) (skipn r s)).

(** Keys and strings of a scanned value always unquote (encoding/json
    panics otherwise); the empty string stands for that unreachable case. *)
Definition unquote_text (s : list ascii) : list ascii :=
  match unquote s with
  | Some u => u
  | None => []
  end.

(** Round half to even of [num / den], for [num >= 0] and [den > 0]. *)
Definition round_half_even (num den : Z) : Z :=
  let q := num / den in
  let r := num mod den in
  if den <? 2 * r then q + 1
  else if 2 * r <? den then q
  else if Z.even q then q else q + 1.

(** [strconv.ParseFloat(lit, 64)] for a literal of value [m * 10^e]: the
    nearest [float64] (ties to even). With [|m * 10^e| = a / b],
    [2^l <= a / b < 2^(l+1)]; the mantissa has 53 bits at exponent [l - 52],
    or fewer below the normal range (exponent -1074). Literals that round
    to an infinity are rejected by [decode] before. The sign of a zero is
    not kept ([json] stores [-0] as [0]); it does not reach an [int64]. *)
Definition float64_of_decimal (m e : Z) : float64 :=
  let a := Z.abs m * 10 ^ Z.max e 0 in
  let b := 10 ^ Z.max (- e) 0 in
  if a =? 0 then mkFloat64 false 0 0
  else
    let t := Z.log2 a - Z.log2 b in
    let l := if (if 0 <=? t then b * 2 ^ t <=? a else b <=? a * 2 ^ (- t))
             then t else t - 1 in
    let k := Z.max (l - 52) (-1074) in
    let M := if 0 <=? k then round_half_even a (b * 2 ^ k)
             else round_half_even (a * 2 ^ (- k)) b in
    mkFloat64 (m <? 0) M k.

(** [int64(v)] for a finite [float64] [v]: truncation toward zero; a value
    outside the [int64] range gives [-2^63], as CVTTSD2SQ does on amd64 (the
    Go specification leaves that result to the implementation). *)
Definition float64_to_int64 (f : float64) : Z :=
  let t := if 0 <=? fexp f then fmant f * 2 ^ fexp f else fmant f / 2 ^ (- fexp f) in
  let v := if fneg f then - t else t in
  if (int_min <=? v) && (v <=? int_max) then v else int_min.

(** What [Decode] stores in [payload]: [valueInterface] of encoding/json.
    Numbers become [float64], strings are unquoted, an object becomes a
    [map[string]interface{}] filled member by member ([objectInterface]). *)
Fixpoint to_interface (v : json) : GoValue :=
  match v with
  | JNull => GNil
  | JBool b => GBool b
  | JNumber m e => GFloat64 (float64_of_decimal m e)
  | JString t => GString (unquote_text t)
  | JArray l => GSlice (map to_interface l)
  | JObject kvs =>
      GMap (fold_left (fun m kv => map_store (unquote_text (fst kv)) (to_interface (snd kv)) m)
              kvs [])
  end.

(** [func getStringFromPayload(payload interface{}, key string) string]. *)
Definition getStringFromPayload (payload : GoValue) (key : list ascii) : list ascii :=
  match payload with
  | GMap m =>
      match map_lookup key m with
      | Some (GString s) => s
      | _ => []
      end
  | _ => []
  end.

(** [func getInt64FromPayload(payload interface{}, key string) int64]. *)
Definition getInt64FromPayload (payload : GoValue) (key : list ascii) : Z :=
  match payload with
  | GMap m =>
      match map_lookup key m with
      | Some (GInt64 v) => v
      | Some (GInt v) => v
      | Some (GFloat64 f) => float64_to_int64 f
      | _ => 0
      end
  | _ => 0
  end.

(** The member of an object literal that a key designates: the last one
    whose unquoted name is the key. *)
Definition last_member (key : list ascii) (kvs : list (list ascii * json)) : option json :=
  match find (fun kv => bytes_eqb key (unquote_text (fst kv))) (rev kvs) with
  | Some kv => Some (snd kv)
  | None => None
  end.

(** [n] nested arrays: [n] opening brackets, then [n] closing ones. *)
Definition nested_arrays (n : nat) : list ascii :=
  repeat "["%char n ++ repeat "]"%char n.

Fixpoint nest (n : nat) : json :=
  match n with
  | O => JArray []
  | S n' => JArray [nest n']
  end.

(** Printable ASCII, no quote and no backslash: text no escape touches. *)
Definition plain_char (c : ascii) : bool :=
  (32 <=? byte_val c) && (byte_val c <? 128)
  && negb (Ascii.eqb c quote) && negb (Ascii.eqb c backslash).

(** A byte that can continue the number literal the scanner is reading:
    after a top-level number the decoder looks at one more byte, and a
    digit, ['.'], ['e'] or ['E'] there is read as part of the number. *)
Definition continues_number (c : ascii) : bool :=
  is_digit c || Ascii.eqb c "."%char || Ascii.eqb c "e"%char || Ascii.eqb c "E"%char.

(** [t] does not start with such a byte. *)
Definition number_stop (t : list ascii) : Prop :=
  match t with
  | c :: _ => continues_number c = false
  | [] => True
  end.

(** ** Sanity checks on small inputs *)

Example add_first : snd (Add store JNull 7) = 1.
Proof. reflexivity. Qed.

Example getall_rev :
  map ID (GetAll (fst (run store [OpAdd JNull 0; OpAdd JNull 0; OpAdd JNull 0])))
  = [3; 2; 1].
Proof. reflexivity. Qed.

Example evict_oldest :
  map ID (webhooks (fst (run store (repeat (OpAdd JNull 0) 7)))) = [3; 4; 5; 6; 7].
Proof. reflexivity. Qed.

Example decode_trailing : decode (list_ascii_of_string "{}x") = Some (JObject []).
Proof. reflexivity. Qed.

Example decode_leading_zero : decode (list_ascii_of_string "01") = Some (JNumber 0 0).
Proof. reflexivity. Qed.

Example decode_trailing_comma : decode (list_ascii_of_string "[1,]") = None.
Proof. reflexivity. Qed.

Example decode_empty : decode (list_ascii_of_string "  ") = None.
Proof. reflexivity. Qed.

Example decode_overflow : decode (list_ascii_of_string "[1.7976931348623159e308]") = None.
Proof. vm_compute. reflexivity. Qed.

Example decode_max_float :
  decode (list_ascii_of_string "1.7976931348623157e308") = Some (JNumber 17976931348623157 292).
Proof. vm_compute. reflexivity. Qed.

Example atoi_range :
  Atoi (list_ascii_of_string "9223372036854775807") = Some int_max
  /\ Atoi (list_ascii_of_string "9223372036854775808") = None
  /\ Atoi (list_ascii_of_string "+7") = Some 7
  /\ Atoi (list_ascii_of_string " 7") = None.
Proof. repeat split; reflexivity. Qed.

(** ** Lemmas on the store operations *)

Lemma GetAll_rev (ws : WebhookStore) : GetAll ws = rev (webhooks ws).
Proof.
  unfold GetAll; cbv zeta. set (l := webhooks ws).
  apply nth_ext with (d := zeroWebhook) (d' := zeroWebhook).
  - rewrite length_map, length_seq, length_rev. reflexivity.
  - intros i Hi. rewrite length_map, length_seq in Hi.
    set (f := fun j => nth (List.length l - 1 - j) l zeroWebhook).
    rewrite (nth_indep (map f (seq 0 (List.length l))) zeroWebhook (f 0%nat))
      by (rewrite length_map, length_seq; exact Hi).
    rewrite map_nth, seq_nth by exact Hi. unfold f; simpl.
    rewrite rev_nth by exact Hi. f_equal. lia.
Qed.

Lemma find_by_id_found (l : list StoredWebhook) (id : Z) :
  snd (find_by_id l id) = true <-> exists w, In w l /\ ID w = id.
Proof.
  induction l as [|w l IH]; simpl.
  - split; [discriminate | intros (w & [] & _)].
  - destruct (Z.eqb_spec (ID w) id) as [E|E]; simpl.
    + split; [intros _; exists w; auto | reflexivity].
    + rewrite IH. split.
      * intros (w' & Hin & Hid). eauto.
      * intros (w' & [<-|Hin] & Hid); [contradiction | eauto].
Qed.

Lemma find_by_id_record (l : list StoredWebhook) (id : Z) :
  snd (find_by_id l id) = true ->
  ID (fst (find_by_id l id)) = id /\ In (fst (find_by_id l id)) l.
Proof.
  induction l as [|w l IH]; simpl; [discriminate|].
  destruct (Z.eqb_spec (ID w) id) as [E|E]; simpl; intros H.
  - auto.
  - destruct (IH H). auto.
Qed.

(** The first entry with the wanted ID is the one returned. *)
Lemma find_by_id_app_last (l : list StoredWebhook) (w : StoredWebhook) :
  (forall w', In w' l -> ID w' <> ID w) ->
  find_by_id (l ++ [w]) (ID w) = (w, true).
Proof.
  induction l as [|w0 l IH]; simpl; intros H.
  - rewrite Z.eqb_refl. reflexivity.
  - destruct (Z.eqb_spec (ID w0) (ID w)) as [E|E].
    + exfalso. apply (H w0); auto.
    + apply IH. intros w' Hin. apply H. auto.
Qed.

(** ** C4: Clear *)

(** Claim C4: Clear returns the number of entries held at the call, leaves
    the store empty (GetAll then returns nothing), and the next Add after
    Clear is assigned ID 1. *)
Theorem Clear_spec (ws : WebhookStore) :
  snd (Clear ws) = Z.of_nat (List.length (webhooks ws))
  /\ webhooks (fst (Clear ws)) = []
  /\ GetAll (fst (Clear ws)) = []
  /\ (forall payload now, snd (Add (fst (Clear ws)) payload now) = 1).
Proof.
  repeat split; reflexivity.
Qed.

(** ** C5: GetAll *)

(** Claim C5: GetAll returns the retained entries, unchanged, in exactly
    the reverse of their order in the store (most recent first), and
    running it leaves the store as it was. *)
Theorem GetAll_snapshot (ws : WebhookStore) :
  GetAll ws = rev (webhooks ws)
  /\ exec ws OpGetAll = (ws, RAll (rev (webhooks ws))).
Proof.
  split; [apply GetAll_rev | simpl; rewrite GetAll_rev; reflexivity].
Qed.

(** ** C6: GetByID *)

(** Claim C6: for every store and every id, GetByID reports found exactly
    when some stored entry has that ID, and a found record is a stored
    entry carrying that ID. *)
Theorem GetByID_total (ws : WebhookStore) (id : Z) :
  (snd (GetByID ws id) = true <-> exists w, In w (webhooks ws) /\ ID w = id)
  /\ (snd (GetByID ws id) = false <-> ~ exists w, In w (webhooks ws) /\ ID w = id)
  /\ (snd (GetByID ws id) = true ->
      ID (fst (GetByID ws id)) = id /\ In (fst (GetByID ws id)) (webhooks ws)).
Proof.
  unfold GetByID. split; [|split].
  - apply find_by_id_found.
  - rewrite <- find_by_id_found. destruct (snd _); split; congruence.
  - apply find_by_id_record.
Qed.

(** ** Arithmetic of the 64-bit wrap-around *)

Lemma wrap_spec (z : Z) :
  wrap z = z - 2 ^ 64 * ((z + 2 ^ 63) / 2 ^ 64) /\ in_int_range (wrap z).
Proof.
  unfold wrap, in_int_range, int_min, int_max.
  pose proof (Z.div_mod (z + 2 ^ 63) (2 ^ 64) ltac:(lia)).
  pose proof (Z.mod_pos_bound (z + 2 ^ 63) (2 ^ 64) ltac:(lia)).
  lia.
Qed.

Lemma wrap_range (z : Z) : in_int_range (wrap z).
Proof. apply wrap_spec. Qed.

Lemma wrap_id (z : Z) : in_int_range z -> wrap z = z.
Proof.
  unfold wrap, in_int_range, int_min, int_max. intros H.
  rewrite Z.mod_small by lia. lia.
Qed.

Lemma wrap_eq (a b : Z) : wrap a = wrap b <-> exists k, a = b + 2 ^ 64 * k.
Proof.
  split.
  - intros H. destruct (wrap_spec a) as [Ha _]. destruct (wrap_spec b) as [Hb _].
    exists ((a + 2 ^ 63) / 2 ^ 64 - (b + 2 ^ 63) / 2 ^ 64). lia.
  - intros [k ->]. unfold wrap.
    replace (b + 2 ^ 64 * k + 2 ^ 63) with (b + 2 ^ 63 + k * 2 ^ 64) by ring.
    rewrite Z.mod_add by lia. reflexivity.
Qed.

Lemma wrap_add (a b : Z) : wrap (wrap a + b) = wrap (a + b).
Proof.
  apply wrap_eq. destruct (wrap_spec a) as [Ha _].
  exists (- ((a + 2 ^ 63) / 2 ^ 64)). lia.
Qed.

(** Two values less than [2^64] apart wrap to different [int]s. *)
Lemma wrap_neq (a b : Z) : 0 < Z.abs (a - b) < 2 ^ 64 -> wrap a <> wrap b.
Proof.
  intros H E. apply wrap_eq in E as [k Hk]. nia.
Qed.

Lemma run_app (ws : WebhookStore) (ops1 ops2 : list op) :
  run ws (ops1 ++ ops2) =
  (fst (run (fst (run ws ops1)) ops2), snd (run ws ops1) ++ snd (run (fst (run ws ops1)) ops2)).
Proof.
  revert ws. induction ops1 as [|o ops1 IH]; intros ws; simpl.
  - destruct (run ws ops2); reflexivity.
  - destruct (exec ws o) as [ws1 r]. rewrite IH.
    destruct (run ws1 ops1) as [ws2 rs] eqn:E1. simpl.
    destruct (run ws2 ops2). reflexivity.
Qed.

Lemma run_cons (ws : WebhookStore) (o : op) (ops : list op) :
  run ws (o :: ops) =
  (fst (run (fst (exec ws o)) ops), snd (exec ws o) :: snd (run (fst (exec ws o)) ops)).
Proof.
  simpl. destruct (exec ws o) as [ws1 r]. cbn [fst snd]. destruct (run ws1 ops). reflexivity.
Qed.

(** The store after one Add: the old entries, possibly without the first,
    followed by the new one. *)
Lemma Add_webhooks (ws : WebhookStore) (p : json) (t : Z) :
  (1 <= maxSize ws) ->
  exists l', webhooks (fst (Add ws p t)) = l' ++ [{| ID := nextID ws; Payload := p; Received := t |}]
             /\ incl l' (webhooks ws)
             /\ List.length l' = (if Z.of_nat (S (List.length (webhooks ws))) >? maxSize ws
                                  then pred (List.length (webhooks ws))
                                  else List.length (webhooks ws)).
Proof.
  intros Hm. unfold Add; simpl. rewrite length_app. simpl.
  replace (List.length (webhooks ws) + 1)%nat with (S (List.length (webhooks ws))) by lia.
  remember (List.length (webhooks ws)) as L eqn:HL.
  destruct (Z.of_nat (S L) >? maxSize ws) eqn:E.
  - destruct (webhooks ws) as [|w0 l] eqn:El.
    + simpl in HL. subst L. apply Z.gtb_lt in E. lia.
    + exists l. split; [|split].
      * reflexivity.
      * intros x Hx; right; exact Hx.
      * subst L. apply Z.gtb_lt in E.
        match goal with |- context [if ?c then _ else _] => destruct c eqn:E' end;
          [reflexivity | rewrite Z.gtb_ltb, Z.ltb_ge in E'; lia].
  - exists (webhooks ws). split; [|split].
    + reflexivity.
    + apply incl_refl.
    + subst L. rewrite Z.gtb_ltb, Z.ltb_ge in E.
      match goal with |- context [if ?c then _ else _] => destruct c eqn:E' end;
        [apply Z.gtb_lt in E'; lia | reflexivity].
Qed.

Lemma wrap_shift (a b c : Z) : wrap (wrap a - b + c) = wrap (a - b + c).
Proof.
  replace (wrap a - b + c) with (wrap a + (c - b)) by ring.
  rewrite wrap_add. f_equal. ring.
Qed.

Lemma window_Add (ws : WebhookStore) (p : json) (t : Z) :
  window ws -> window (fst (Add ws p t)).
Proof.
  intros (Hm & HL & Hr & Hids & He).
  set (x := {| ID := nextID ws; Payload := p; Received := t |}).
  unfold window, window_ids, Add; cbn [fst webhooks nextID maxSize].
  fold x. rewrite Hm. rewrite length_app. cbn [List.length].
  unfold window_ids in Hids.
  destruct (Nat.eq_dec (List.length (webhooks ws)) 5) as [E5|E5].
  - rewrite E5 in Hids |- *. cbn -[wrap] in Hids |- *.
    destruct (webhooks ws) as [|w0 l] eqn:El; [discriminate|].
    cbn [tl app List.length] in *. simpl in E5.
    injection E5 as E5.
    destruct l as [|w1 [|w2 [|w3 [|w4 [|w5 l]]]]]; try discriminate.
    cbn -[wrap] in Hids |- *.
    injection Hids as H0 H1 H2 H3 H4.
    split; [reflexivity|]. split; [lia|]. split; [apply wrap_range|].
    split; [|discriminate].
    rewrite H1, H2, H3, H4. rewrite !wrap_shift.
    replace (nextID ws + 1 - 5 + 0) with (nextID ws - 5 + 1) by lia.
    replace (nextID ws + 1 - 5 + 1) with (nextID ws - 5 + 2) by lia.
    replace (nextID ws + 1 - 5 + 2) with (nextID ws - 5 + 3) by lia.
    replace (nextID ws + 1 - 5 + 3) with (nextID ws - 5 + 4) by lia.
    replace (nextID ws + 1 - 5 + 4) with (nextID ws) by lia.
    rewrite (wrap_id (nextID ws) Hr). reflexivity.
  - assert (Hlt : (List.length (webhooks ws) < 5)%nat) by lia.
    replace (Z.of_nat (List.length (webhooks ws) + 1) >? 5) with false
      by (symmetry; rewrite Z.gtb_ltb, Z.ltb_ge; lia).
    rewrite length_app. cbn [List.length].
    split; [reflexivity|]. split; [lia|]. split; [apply wrap_range|].
    split.
    + rewrite map_app, Hids. rewrite Nat.add_1_r, seq_S, map_app.
      cbn [map]. f_equal.
      * apply map_ext. intros i. rewrite wrap_shift. f_equal. lia.
      * f_equal. unfold x; cbn [ID]. rewrite wrap_shift.
        transitivity (wrap (nextID ws)); [symmetry; apply wrap_id, Hr | f_equal; lia].
    + destruct (webhooks ws); discriminate.
Qed.

Lemma window_exec (ws : WebhookStore) (o : op) :
  window ws -> window (fst (exec ws o)).
Proof.
  intros H. destruct o as [p t| |id|]; unfold exec.
  - pose proof (window_Add ws p t H) as HA.
    destruct (Add ws p t) as [ws' i]. exact HA.
  - exact H.
  - destruct (GetByID ws id). exact H.
  - destruct H as (Hm & _). unfold Clear, window, window_ids; simpl.
    repeat split; try lia; auto. unfold int_min, int_max; lia. unfold int_max; lia.
Qed.

Lemma window_run (ws : WebhookStore) (ops : list op) :
  window ws -> window (fst (run ws ops)).
Proof.
  revert ws. induction ops as [|o ops IH]; intros ws H; [exact H|].
  rewrite run_cons. apply IH, window_exec, H.
Qed.

Lemma window_store : window store.
Proof.
  unfold window, window_ids, store, in_int_range, int_min, int_max; simpl.
  repeat split; try lia; auto.
Qed.

Lemma reachable_window (ws : WebhookStore) : reachable ws -> window ws.
Proof.
  intros [ops ->]. apply window_run, window_store.
Qed.

Lemma window_In (ws : WebhookStore) (w : StoredWebhook) :
  window ws -> In w (webhooks ws) ->
  exists i, (i < List.length (webhooks ws))%nat
            /\ ID w = wrap (nextID ws - Z.of_nat (List.length (webhooks ws)) + Z.of_nat i).
Proof.
  intros (_ & _ & _ & Hids & _) Hin.
  apply (in_map ID) in Hin. rewrite Hids in Hin. unfold window_ids in Hin.
  apply in_map_iff in Hin as (i & Hi & Hs). apply in_seq in Hs.
  exists i. split; [lia | symmetry; exact Hi].
Qed.

Lemma reachable_store : reachable store.
Proof. exists []. reflexivity. Qed.

(** ** C2: Add then GetByID *)

(** Claim C2: in every state the store can reach, GetByID called right after
    Add(P) with the ID that Add returned finds the new record: its ID is
    that ID and its payload is P. *)
Theorem Add_GetByID (ws : WebhookStore) (payload : json) (now : Z)
  (Hr : reachable ws) :
  GetByID (fst (Add ws payload now)) (snd (Add ws payload now))
  = ({| ID := snd (Add ws payload now); Payload := payload; Received := now |}, true).
Proof.
  pose proof (reachable_window ws Hr) as Hw.
  destruct Hw as (Hm & HL & Hrange & Hids & He) eqn:Hw'.
  destruct (Add_webhooks ws payload now ltac:(lia)) as (l' & Hl' & Hincl & _).
  change (snd (Add ws payload now)) with (nextID ws).
  unfold GetByID. rewrite Hl'.
  apply (find_by_id_app_last l' {| ID := nextID ws; Payload := payload; Received := now |}).
  intros w' Hin. cbn [ID]. apply Hincl in Hin.
  destruct (window_In ws w' (reachable_window ws Hr) Hin) as (i & Hi & Hid).
  rewrite Hid. rewrite <- (wrap_id (nextID ws) Hrange) at 2.
  apply wrap_neq. lia.
Qed.

Lemma Add_GetByID_witness :
  reachable store
  /\ GetByID (fst (Add store (JBool true) 3)) (snd (Add store (JBool true) 3))
     = ({| ID := snd (Add store (JBool true) 3); Payload := JBool true; Received := 3 |}, true).
Proof.
  split; [apply reachable_store | apply (Add_GetByID store (JBool true) 3 reachable_store)].
Defined.

(** ** Runs of Add calls *)

Lemma exec_Add (ws : WebhookStore) (p : json) (t : Z) :
  exec ws (OpAdd p t) = (fst (Add ws p t), RId (nextID ws)).
Proof. reflexivity. Qed.

Lemma run_adds_ids (ws : WebhookStore) (ps : list (json * Z)) :
  in_int_range (nextID ws) ->
  add_ids (snd (run ws (adds ps)))
  = map (fun i => wrap (nextID ws + Z.of_nat i)) (seq 0 (List.length ps))
  /\ nextID (fst (run ws (adds ps))) = wrap (nextID ws + Z.of_nat (List.length ps)).
Proof.
  revert ws. induction ps as [|[p t] ps IH]; intros ws Hr.
  - simpl. rewrite Z.add_0_r, wrap_id by exact Hr. auto.
  - change (adds ((p, t) :: ps)) with (OpAdd p t :: adds ps). rewrite run_cons, exec_Add. cbn [fst snd add_ids].
    destruct (IH (fst (Add ws p t)) (wrap_range _)) as [Hi Hn].
    change (nextID (fst (Add ws p t))) with (wrap (nextID ws + 1)) in Hi, Hn.
    split.
    + rewrite Hi. cbn [List.length seq map]. rewrite Z.add_0_r, (wrap_id _ Hr).
      f_equal. rewrite <- seq_shift, map_map. apply map_ext. intros i.
      rewrite wrap_add. f_equal. lia.
    + rewrite Hn, wrap_add. f_equal. cbn [List.length]. lia.
Qed.

Lemma Add_length (ws : WebhookStore) (p : json) (t : Z) :
  window ws ->
  List.length (webhooks (fst (Add ws p t))) = Nat.min (S (List.length (webhooks ws))) 5.
Proof.
  intros (Hm & HL & _).
  destruct (Add_webhooks ws p t ltac:(lia)) as (l' & Hl' & _ & Hlen).
  rewrite Hl', length_app, Hlen. cbn [List.length]. rewrite Hm.
  destruct (Z.of_nat (S (List.length (webhooks ws))) >? 5) eqn:E.
  - apply Z.gtb_lt in E. lia.
  - rewrite Z.gtb_ltb, Z.ltb_ge in E. lia.
Qed.

Lemma run_adds_length (ws : WebhookStore) (ps : list (json * Z)) :
  window ws ->
  List.length (webhooks (fst (run ws (adds ps))))
  = Nat.min (List.length (webhooks ws) + List.length ps) 5.
Proof.
  revert ws. induction ps as [|[p t] ps IH]; intros ws Hw.
  - simpl. destruct Hw as (_ & HL & _). lia.
  - change (adds ((p, t) :: ps)) with (OpAdd p t :: adds ps). rewrite run_cons, exec_Add. cbn [fst].
    rewrite (IH _ (window_Add ws p t Hw)), (Add_length ws p t Hw).
    cbn [List.length]. lia.
Qed.

Lemma adds_no_clear (ps : list (json * Z)) : no_clear (adds ps).
Proof.
  unfold no_clear, adds. intros Hin. apply in_map_iff in Hin as (pt & H & _).
  discriminate.
Qed.

Lemma count_adds_app (ops1 ops2 : list op) :
  count_adds (ops1 ++ ops2) = (count_adds ops1 + count_adds ops2)%nat.
Proof.
  induction ops1 as [|o ops1 IH]; [reflexivity|].
  destruct o; simpl; rewrite ?IH; reflexivity.
Qed.

Lemma StronglySorted_nth (l : list Z) (i j : nat) :
  StronglySorted Z.lt l -> (i < j < List.length l)%nat -> nth i l 0 < nth j l 0.
Proof.
  revert i j. induction l as [|a l IH]; intros i j Hs Hij; simpl in Hij; [lia|].
  apply StronglySorted_inv in Hs as [Hs Hf].
  destruct i as [|i], j as [|j]; try lia; simpl.
  - rewrite Forall_forall in Hf. apply Hf, nth_In. lia.
  - apply IH; [exact Hs | lia].
Qed.

Lemma StronglySorted_shift (n : Z) (s k : nat) :
  StronglySorted Z.lt (map (fun i => n + Z.of_nat i) (seq s k)).
Proof.
  revert s. induction k as [|k IH]; intros s; simpl; constructor; [apply IH|].
  apply Forall_forall. intros x Hx. apply in_map_iff in Hx as (i & <- & Hi).
  apply in_seq in Hi. lia.
Qed.

Lemma run_snoc (ws : WebhookStore) (ops : list op) (o : op) :
  fst (run ws (ops ++ [o])) = fst (exec (fst (run ws ops)) o).
Proof.
  rewrite run_app. cbn [fst]. rewrite run_cons. reflexivity.
Qed.

(** While fewer than [int_max] Add calls have run, the counter never wraps:
    it is one more than the number of Add calls since the last Clear. *)
Lemma nowrap_run (ops : list op) :
  Z.of_nat (count_adds ops) < int_max ->
  1 + Z.of_nat (List.length (webhooks (fst (run store ops))))
  <= nextID (fst (run store ops)) <= 1 + Z.of_nat (count_adds ops).
Proof.
  induction ops as [|o ops IH] using rev_ind; intros Hb.
  - simpl. lia.
  - rewrite count_adds_app in Hb |- *. rewrite run_snoc.
    pose proof (window_run store ops window_store) as Hw.
    set (ws := fst (run store ops)) in *.
    assert (IH' := IH ltac:(lia)).
    destruct o as [p t| |id|]; cbn [count_adds] in Hb |- *.
    + rewrite exec_Add. cbn [fst].
      rewrite (Add_length ws p t Hw).
      change (nextID (fst (Add ws p t))) with (wrap (nextID ws + 1)).
      rewrite wrap_id by (unfold in_int_range, int_min, int_max in *; lia).
      lia.
    + cbn [exec fst]. lia.
    + unfold exec. destruct (GetByID ws id). cbn [fst]. lia.
    + cbn [exec Clear fst webhooks nextID List.length]. lia.
Qed.

(** Under that bound every stored ID is a literal, positive value below the
    counter. *)
Lemma nowrap_ids (ops : list op) (w : StoredWebhook) :
  Z.of_nat (count_adds ops) < int_max ->
  In w (webhooks (fst (run store ops))) ->
  1 <= ID w < nextID (fst (run store ops)).
Proof.
  intros Hb Hin.
  pose proof (nowrap_run ops Hb) as Hn.
  pose proof (window_run store ops window_store) as Hw.
  destruct (window_In _ w Hw Hin) as (i & Hi & ->).
  rewrite wrap_id; unfold in_int_range, int_min, int_max in *; lia.
Qed.

(** Between two Clears, each Add takes the counter and increments it. *)
Lemma run_noclear (ws : WebhookStore) (ops : list op) :
  no_clear ops -> 1 <= nextID ws ->
  nextID ws + Z.of_nat (count_adds ops) <= int_max ->
  add_ids (snd (run ws ops)) = map (fun i => nextID ws + Z.of_nat i) (seq 0 (count_adds ops))
  /\ nextID (fst (run ws ops)) = nextID ws + Z.of_nat (count_adds ops).
Proof.
  revert ws. induction ops as [|o ops IH]; intros ws Hnc H1 Hb.
  - simpl. split; [reflexivity | lia].
  - assert (Hnc' : no_clear ops) by (intros Hin; apply Hnc; right; exact Hin).
    rewrite run_cons.
    destruct o as [p t| |id|]; cbn [count_adds] in Hb |- *.
    + rewrite exec_Add. cbn [fst snd add_ids].
      assert (Hn1 : nextID (fst (Add ws p t)) = nextID ws + 1).
      { change (nextID (fst (Add ws p t))) with (wrap (nextID ws + 1)).
        apply wrap_id. unfold in_int_range, int_min, int_max in *; lia. }
      destruct (IH (fst (Add ws p t)) Hnc' ltac:(lia) ltac:(lia)) as [Hi Hn].
      rewrite Hn1 in Hi, Hn.
      split.
      * rewrite Hi. cbn [seq map]. f_equal; [lia|].
        rewrite <- seq_shift, map_map. apply map_ext. intros i. lia.
      * rewrite Hn. lia.
    + cbn [exec fst snd add_ids]. apply IH; assumption.
    + unfold exec. destruct (GetByID ws id) as [w b]. cbn [fst snd add_ids].
      apply IH; assumption.
    + exfalso. apply Hnc. left. reflexivity.
Qed.

Lemma window_NoDup (ws : WebhookStore) : window ws -> NoDup (map ID (webhooks ws)).
Proof.
  intros Hw. destruct Hw as (_ & HL & _ & Hids & _). rewrite Hids. unfold window_ids.
  apply NoDup_map_NoDup_ForallPairs; [|apply seq_NoDup].
  intros a b Ha Hb E. apply in_seq in Ha, Hb.
  destruct (Nat.eq_dec a b) as [|Hne]; [assumption|].
  exfalso. revert E. apply wrap_neq. lia.
Qed.

Lemma nth_map_seq (f : nat -> Z) (n i : nat) (d : Z) :
  (i < n)%nat -> nth i (map f (seq 0 n)) d = f i.
Proof.
  intros Hi. rewrite (nth_indep _ d (f 0%nat)) by (rewrite length_map, length_seq; exact Hi).
  rewrite map_nth, seq_nth by exact Hi. reflexivity.
Qed.

Lemma reachable_empty (ws : WebhookStore) :
  reachable ws -> webhooks ws = [] -> nextID ws = 1.
Proof.
  intros Hr He. destruct (reachable_window ws Hr) as (_ & _ & _ & _ & H). auto.
Qed.

(** ** C1: bounded size and eviction of the oldest entry *)

(** Claim C1 (as amended): from the initial store no sequence of operations
    ever holds more than [maxSize] entries; and from any empty store the
    program reaches, after N > maxSize Add calls with N at most [int_max]
    (so that the ID counter does not wrap), GetAll returns exactly maxSize
    entries and the entry with the smallest ID assigned by those N calls is
    absent. *)
Theorem bounded_fifo (ops : list op) (ws : WebhookStore) (ps : list (json * Z))
  (Hr : reachable ws) (He : webhooks ws = [])
  (HN : (Z.to_nat (maxSize store) < List.length ps)%nat)
  (Hb : Z.of_nat (List.length ps) <= int_max) :
  (List.length (webhooks (fst (run store ops))) <= Z.to_nat (maxSize store))%nat
  /\ List.length (GetAll (fst (run ws (adds ps)))) = Z.to_nat (maxSize store)
  /\ exists m, In m (add_ids (snd (run ws (adds ps))))
       /\ (forall x, In x (add_ids (snd (run ws (adds ps)))) -> m <= x)
       /\ (forall w, In w (GetAll (fst (run ws (adds ps)))) -> ID w <> m).
Proof.
  change (Z.to_nat (maxSize store)) with 5%nat in *.
  pose proof (reachable_window ws Hr) as Hw.
  pose proof (reachable_empty ws Hr He) as H1.
  destruct (run_adds_ids ws ps (proj1 (proj2 (proj2 Hw)))) as [Hids Hn].
  rewrite H1 in Hids, Hn.
  split; [|split].
  - destruct (window_run store ops window_store) as (_ & HL & _). exact HL.
  - rewrite GetAll_rev, length_rev, (run_adds_length ws ps Hw), He. simpl. lia.
  - exists 1. rewrite Hids. split; [|split].
    + apply in_map_iff. exists 0%nat. split; [reflexivity|]. apply in_seq. lia.
    + intros x Hx. apply in_map_iff in Hx as (i & <- & Hi). apply in_seq in Hi.
      rewrite wrap_id; unfold in_int_range, int_min, int_max in *; lia.
    + intros w Hin. rewrite GetAll_rev, <- in_rev in Hin.
      pose proof (window_run ws (adds ps) Hw) as Hw'.
      destruct (window_In _ w Hw' Hin) as (i & Hi & ->).
      rewrite (run_adds_length ws ps Hw), He in Hi |- *. rewrite Hn, wrap_shift.
      cbn [List.length Nat.add] in *.
      rewrite wrap_id; unfold in_int_range, int_min, int_max in *; lia.
Qed.

Lemma bounded_fifo_witness :
  reachable store /\ webhooks store = []
  /\ (Z.to_nat (maxSize store) < List.length (repeat (JNull, 0) 6))%nat
  /\ Z.of_nat (List.length (repeat (JNull, 0) 6)) <= int_max
  /\ (List.length (webhooks (fst (run store []))) <= Z.to_nat (maxSize store))%nat
  /\ List.length (GetAll (fst (run store (adds (repeat (JNull, 0) 6))))) = Z.to_nat (maxSize store)
  /\ exists m, In m (add_ids (snd (run store (adds (repeat (JNull, 0) 6)))))
       /\ (forall x, In x (add_ids (snd (run store (adds (repeat (JNull, 0) 6))))) -> m <= x)
       /\ (forall w, In w (GetAll (fst (run store (adds (repeat (JNull, 0) 6))))) -> ID w <> m).
Proof.
  assert (H1 : reachable store) by (exists []; reflexivity).
  assert (H2 : webhooks store = []) by reflexivity.
  assert (H3 : (Z.to_nat (maxSize store) < List.length (repeat (JNull, 0) 6))%nat)
    by (simpl; lia).
  assert (H4 : Z.of_nat (List.length (repeat (JNull, 0) 6)) <= int_max)
    by (unfold int_max; simpl; lia).
  split; [exact H1|]. split; [exact H2|]. split; [exact H3|]. split; [exact H4|].
  exact (bounded_fifo [] store (repeat (JNull, 0) 6) H1 H2 H3 H4).
Defined.

(** With N = 2^63 + 1 Add calls the counter wraps: the smallest ID handed
    out is [int_min], given by the 2^63-th call, and it is still stored. *)
Lemma bounded_fifo_wrap (N : nat) (HN : Z.of_nat N = 2 ^ 63 + 1) :
  ~ exists m, In m (add_ids (snd (run store (adds (repeat (JNull, 0) N)))))
       /\ (forall x, In x (add_ids (snd (run store (adds (repeat (JNull, 0) N))))) -> m <= x)
       /\ (forall w, In w (GetAll (fst (run store (adds (repeat (JNull, 0) N))))) -> ID w <> m).
Proof.
  set (ps := repeat (JNull, 0) N).
  assert (Hlen : List.length ps = N) by apply repeat_length.
  destruct (run_adds_ids store ps ltac:(unfold in_int_range, int_min, int_max; simpl; lia))
    as [Hids Hn].
  rewrite Hlen in Hids, Hn. cbn [nextID store] in Hids, Hn.
  intros (m & Hm & Hmin & Habs). rewrite Hids in Hm, Hmin.
  assert (Hlo : int_min <= m).
  { apply in_map_iff in Hm as (i & <- & _). apply wrap_range. }
  assert (Hhi : m <= int_min).
  { apply Hmin. apply in_map_iff. exists (Z.to_nat (2 ^ 63 - 1)). split.
    - rewrite Z2Nat.id by lia. reflexivity.
    - apply in_seq. lia. }
  assert (Hw := window_run store (adds ps) window_store).
  destruct Hw as (_ & _ & _ & Hwin & _).
  assert (Hl5 := run_adds_length store ps window_store).
  rewrite Hlen in Hl5. cbn [webhooks store List.length Nat.add] in Hl5.
  replace (Nat.min N 5) with 5%nat in Hl5 by lia.
  assert (Hin : In int_min (map ID (webhooks (fst (run store (adds ps)))))).
  { rewrite Hwin. unfold window_ids. rewrite Hl5, Hn. apply in_map_iff.
    exists 3%nat. split; [|apply in_seq; lia].
    rewrite wrap_shift, HN. reflexivity. }
  apply in_map_iff in Hin as (w & Hid & Hin).
  apply (Habs w); [rewrite GetAll_rev, <- in_rev; exact Hin | lia].
Qed.

(** Claim C1 as stated fails once the counter wraps: from the initial
    (empty) store, after 2^63 + 1 Add calls the entry with the smallest
    assigned ID, [int_min], is not the evicted one. *)
Lemma bounded_fifo_overflow :
  reachable store /\ webhooks store = []
  /\ (Z.to_nat (maxSize store) < List.length (repeat (JNull, 0) (Z.to_nat (2 ^ 63 + 1))))%nat
  /\ ~ exists m,
       In m (add_ids (snd (run store (adds (repeat (JNull, 0) (Z.to_nat (2 ^ 63 + 1)))))))
       /\ (forall x, In x (add_ids (snd (run store (adds (repeat (JNull, 0) (Z.to_nat (2 ^ 63 + 1))))))) -> m <= x)
       /\ (forall w, In w (GetAll (fst (run store (adds (repeat (JNull, 0) (Z.to_nat (2 ^ 63 + 1)))))))
                     -> ID w <> m).
Proof.
  split; [exists []; reflexivity|]. split; [reflexivity|]. split.
  - rewrite repeat_length. change (Z.to_nat (maxSize store)) with 5%nat. lia.
  - apply bounded_fifo_wrap. apply Z2Nat.id. lia.
Qed.

(** ** C3: increasing IDs *)

(** Claim C3 (as amended): as long as fewer than [int_max] Add calls have
    run on the store in total (so the counter never wraps), in every
    Clear-free stretch of operations the IDs returned by Add are strictly
    increasing and above every ID already stored; the counter is at least 1
    and only grows by one per Add there (it goes back to 1 only through
    Clear); and the stored IDs are pairwise distinct. *)
Theorem ids_increasing (ops1 ops2 : list op) (Hnc : no_clear ops2)
  (Hb : Z.of_nat (count_adds (ops1 ++ ops2)) < int_max) :
  StronglySorted Z.lt (add_ids (snd (run (fst (run store ops1)) ops2)))
  /\ (forall x w, In x (add_ids (snd (run (fst (run store ops1)) ops2))) ->
                  In w (webhooks (fst (run store ops1))) -> ID w < x)
  /\ 1 <= nextID (fst (run store ops1))
  /\ nextID (fst (run (fst (run store ops1)) ops2))
     = nextID (fst (run store ops1)) + Z.of_nat (count_adds ops2)
  /\ NoDup (map ID (webhooks (fst (run (fst (run store ops1)) ops2)))).
Proof.
  rewrite count_adds_app in Hb.
  pose proof (nowrap_run ops1 ltac:(lia)) as Hn1.
  set (ws := fst (run store ops1)) in *.
  destruct (run_noclear ws ops2 Hnc ltac:(lia) ltac:(lia)) as [Hids Hn].
  split; [|split; [|split; [|split]]].
  - rewrite Hids. apply StronglySorted_shift.
  - intros x w Hx Hw. rewrite Hids in Hx.
    apply in_map_iff in Hx as (i & <- & _).
    pose proof (nowrap_ids ops1 w ltac:(lia) Hw). fold ws in H. lia.
  - lia.
  - exact Hn.
  - apply window_NoDup, window_run, window_run, window_store.
Qed.

Lemma ids_increasing_witness :
  no_clear [OpAdd JNull 0; OpGetAll; OpAdd (JBool false) 1]
  /\ Z.of_nat (count_adds ([OpClear] ++ [OpAdd JNull 0; OpGetAll; OpAdd (JBool false) 1])) < int_max
  /\ StronglySorted Z.lt
       (add_ids (snd (run (fst (run store [OpClear])) [OpAdd JNull 0; OpGetAll; OpAdd (JBool false) 1]))).
Proof.
  assert (H1 : no_clear [OpAdd JNull 0; OpGetAll; OpAdd (JBool false) 1])
    by (intros [H|[H|[H|[]]]]; discriminate).
  assert (H2 : Z.of_nat (count_adds ([OpClear] ++ [OpAdd JNull 0; OpGetAll; OpAdd (JBool false) 1]))
               < int_max) by (unfold int_max; simpl; lia).
  split; [exact H1|]. split; [exact H2|].
  exact (proj1 (ids_increasing [OpClear] [OpAdd JNull 0; OpGetAll; OpAdd (JBool false) 1] H1 H2)).
Defined.

Lemma ids_wrap (N : nat) (HN : Z.of_nat N = 2 ^ 63) :
  ~ StronglySorted Z.lt (add_ids (snd (run store (adds (repeat (JNull, 0) N))))).
Proof.
  set (ps := repeat (JNull, 0) N).
  assert (Hlen : List.length ps = N) by apply repeat_length.
  destruct (run_adds_ids store ps ltac:(unfold in_int_range, int_min, int_max; simpl; lia))
    as [Hids _].
  rewrite Hlen in Hids. cbn [nextID store] in Hids. rewrite Hids. intros Hs.
  pose proof (StronglySorted_nth _ (N - 2) (N - 1) Hs) as H.
  rewrite length_map, length_seq in H.
  rewrite !nth_map_seq in H by lia.
  replace (1 + Z.of_nat (N - 2)) with (2 ^ 63 - 1) in H by lia.
  replace (1 + Z.of_nat (N - 1)) with (2 ^ 63) in H by lia.
  specialize (H ltac:(lia)). vm_compute in H. discriminate.
Qed.

(** Claim C3 as stated fails once the counter wraps: from the initial store,
    2^63 Add calls and no Clear, the last call returns [int_min], below the
    [int_max] returned just before it. *)
Lemma ids_increasing_overflow :
  no_clear (adds (repeat (JNull, 0) (Z.to_nat (2 ^ 63))))
  /\ ~ StronglySorted Z.lt
         (add_ids (snd (run (fst (run store [])) (adds (repeat (JNull, 0) (Z.to_nat (2 ^ 63))))))).
Proof.
  split; [apply adds_no_clear|].
  apply ids_wrap. apply Z2Nat.id. lia.
Qed.

(** ** The [/webhooks/{id}] handler *)

Lemma getWebhookByIDHandler_GET (ws : WebhookStore) (seg : list ascii) :
  getWebhookByIDHandler ws "GET" (webhooks_prefix ++ seg) =
  match Atoi seg with
  | None => mkResponse StatusBadRequest (BodyError "Invalid webhook ID")
  | Some id =>
      if negb (snd (GetByID ws id))
      then mkResponse StatusNotFound (BodyError "Webhook not found")
      else mkResponse StatusOK (BodyWebhook (fst (GetByID ws id)))
  end.
Proof.
  unfold getWebhookByIDHandler.
  replace (String.eqb "GET" "GET") with true by reflexivity. cbn [negb].
  replace ((List.length (webhooks_prefix ++ seg) <? 10)%nat) with false
    by (symmetry; apply Nat.ltb_ge; rewrite length_app; cbn; lia).
  replace (skipn 10 (webhooks_prefix ++ seg)) with seg by reflexivity.
  destruct (Atoi seg) as [id|]; [|reflexivity].
  destruct (GetByID ws id); reflexivity.
Qed.

(** Claim C7: on the by-ID endpoint, a method other than GET gets 405; with
    GET, an ID segment that [strconv.Atoi] rejects gets 400, an ID no stored
    entry has gets 404, and an ID some stored entry has gets 200 with that
    stored entry as the body. *)
Theorem getWebhookByID_status (ws : WebhookStore) (method : string)
  (seg : list ascii) (id : Z) :
  (method <> "GET"%string ->
   getWebhookByIDHandler ws method (webhooks_prefix ++ seg)
   = mkResponse StatusMethodNotAllowed (BodyError "Method not allowed"))
  /\ (Atoi seg = None ->
      getWebhookByIDHandler ws "GET" (webhooks_prefix ++ seg)
      = mkResponse StatusBadRequest (BodyError "Invalid webhook ID"))
  /\ (Atoi seg = Some id -> ~ (exists w, In w (webhooks ws) /\ ID w = id) ->
      getWebhookByIDHandler ws "GET" (webhooks_prefix ++ seg)
      = mkResponse StatusNotFound (BodyError "Webhook not found"))
  /\ (Atoi seg = Some id -> (exists w, In w (webhooks ws) /\ ID w = id) ->
      exists w, In w (webhooks ws) /\ ID w = id
        /\ getWebhookByIDHandler ws "GET" (webhooks_prefix ++ seg)
           = mkResponse StatusOK (BodyWebhook w)).
Proof.
  split; [|split; [|split]].
  - intros Hm. unfold getWebhookByIDHandler.
    destruct (String.eqb_spec method "GET"); [contradiction | reflexivity].
  - intros Ha. rewrite getWebhookByIDHandler_GET, Ha. reflexivity.
  - intros Ha Hn. rewrite getWebhookByIDHandler_GET, Ha.
    destruct (snd (GetByID ws id)) eqn:E; [|reflexivity].
    exfalso. apply Hn. apply find_by_id_found. exact E.
  - intros Ha Hp. rewrite getWebhookByIDHandler_GET, Ha.
    apply find_by_id_found in Hp. unfold GetByID in *. rewrite Hp.
    destruct (find_by_id_record _ _ Hp) as [Hid Hin].
    exists (fst (find_by_id (webhooks ws) id)). auto.
Qed.

Lemma getWebhookByID_status_witness :
  getWebhookByIDHandler (fst (run store [OpAdd JNull 0])) "GET"
    (webhooks_prefix ++ list_ascii_of_string "1")
  = mkResponse StatusOK (BodyWebhook {| ID := 1; Payload := JNull; Received := 0 |})
  /\ Atoi (list_ascii_of_string "1") = Some 1.
Proof.
  assert (Ha : Atoi (list_ascii_of_string "1") = Some 1) by reflexivity.
  assert (Hp : exists w, In w (webhooks (fst (run store [OpAdd JNull 0]))) /\ ID w = 1)
    by (exists {| ID := 1; Payload := JNull; Received := 0 |}; split; [left |]; reflexivity).
  destruct (proj2 (proj2 (proj2 (getWebhookByID_status (fst (run store [OpAdd JNull 0]))
              "GET" (list_ascii_of_string "1") 1))) Ha Hp) as (w & Hin & Hid & Hr).
  split; [|exact Ha].
  rewrite Hr. destruct Hin as [<-|[]]. reflexivity.
Defined.

(** ** C10: non-positive IDs *)

(** Claim C10 (as amended): on a store reached from the initial one by fewer
    than [int_max] Add calls in total (so the counter never wraps), a GET
    whose ID segment parses to an integer that is zero or negative is not
    answered 400 but looked up, and gets 404. *)
Theorem nonpositive_id_not_found (ops : list op) (seg : list ascii) (id : Z)
  (Hb : Z.of_nat (count_adds ops) < int_max)
  (Ha : Atoi seg = Some id) (Hid : id <= 0) :
  getWebhookByIDHandler (fst (run store ops)) "GET" (webhooks_prefix ++ seg)
  = mkResponse StatusNotFound (BodyError "Webhook not found").
Proof.
  rewrite getWebhookByIDHandler_GET, Ha.
  destruct (snd (GetByID (fst (run store ops)) id)) eqn:E; [|reflexivity].
  exfalso. apply find_by_id_found in E as (w & Hin & Hw).
  pose proof (nowrap_ids ops w Hb Hin). lia.
Qed.

Lemma nonpositive_id_not_found_witness :
  getWebhookByIDHandler (fst (run store [OpAdd JNull 0; OpAdd JNull 1])) "GET"
    (webhooks_prefix ++ list_ascii_of_string "-1")
  = mkResponse StatusNotFound (BodyError "Webhook not found").
Proof.
  apply (nonpositive_id_not_found [OpAdd JNull 0; OpAdd JNull 1]
           (list_ascii_of_string "-1") (-1)).
  - unfold int_max. simpl. lia.
  - reflexivity.
  - lia.
Defined.

Lemma GetByID_int_min_after_wrap (N : nat) (HN : Z.of_nat N = 2 ^ 63) :
  snd (GetByID (fst (run store (adds (repeat (JNull, 0) N)))) int_min) = true.
Proof.
  set (ps := repeat (JNull, 0) N).
  assert (Hlen : List.length ps = N) by apply repeat_length.
  destruct (run_adds_ids store ps ltac:(unfold in_int_range, int_min, int_max; simpl; lia))
    as [_ Hn].
  rewrite Hlen in Hn. cbn [nextID store] in Hn.
  assert (Hw := window_run store (adds ps) window_store).
  destruct Hw as (_ & _ & _ & Hwin & _).
  assert (Hl5 := run_adds_length store ps window_store).
  rewrite Hlen in Hl5. cbn [webhooks store List.length Nat.add] in Hl5.
  replace (Nat.min N 5) with 5%nat in Hl5 by lia.
  assert (Hin : In int_min (map ID (webhooks (fst (run store (adds ps)))))).
  { rewrite Hwin. unfold window_ids. rewrite Hl5, Hn. apply in_map_iff.
    exists 4%nat. split; [|apply in_seq; lia].
    rewrite wrap_shift, HN. reflexivity. }
  apply in_map_iff in Hin as (w & Hid & Hin).
  apply find_by_id_found. exists w. auto.
Qed.

(** Claim C10 as stated fails once the counter wraps: after 2^63 Add calls
    from the initial store, [int_min] is a stored ID and
    [GET /webhooks/-9223372036854775808] gets 200. *)
Lemma nonpositive_id_found_after_wrap :
  reachable (fst (run store (adds (repeat (JNull, 0) (Z.to_nat (2 ^ 63))))))
  /\ Atoi (list_ascii_of_string "-9223372036854775808") = Some int_min
  /\ int_min <= 0
  /\ status (getWebhookByIDHandler (fst (run store (adds (repeat (JNull, 0) (Z.to_nat (2 ^ 63))))))
               "GET" (webhooks_prefix ++ list_ascii_of_string "-9223372036854775808"))
     = StatusOK.
Proof.
  assert (Ha : Atoi (list_ascii_of_string "-9223372036854775808") = Some int_min)
    by reflexivity.
  split; [eexists; reflexivity|]. split; [exact Ha|]. split; [unfold int_min; lia|].
  rewrite getWebhookByIDHandler_GET, Ha.
  rewrite (GetByID_int_min_after_wrap (Z.to_nat (2 ^ 63)) ltac:(apply Z2Nat.id; lia)).
  reflexivity.
Qed.

(** ** The fuel of [decode] is never what stops the scan *)

Lemma skip_ws_le (s : list ascii) : (List.length (skip_ws s) <= List.length s)%nat.
Proof.
  induction s as [|c s IH]; simpl; [lia|]. destruct (is_space c); simpl; lia.
Qed.

Lemma span_digits_le (s : list ascii) :
  (List.length (snd (span_digits s)) <= List.length s)%nat.
Proof.
  induction s as [|c s IH]; simpl; [lia|].
  destruct (is_digit c); [|simpl; lia].
  destruct (span_digits s) as [d r]. simpl in *. lia.
Qed.

Lemma strip_prefix_le (p s r : list ascii) :
  strip_prefix p s = Some r -> (List.length r <= List.length s)%nat.
Proof.
  revert s. induction p as [|a p IH]; intros s H; simpl in H.
  - injection H as <-. lia.
  - destruct s as [|c s]; [discriminate|].
    destruct (Ascii.eqb a c); [|discriminate]. apply IH in H. simpl. lia.
Qed.

Lemma scan_string_lt (s t r : list ascii) :
  scan_string s = Some (t, r) -> (List.length r < List.length s)%nat.
Proof.
  revert t. induction s as [s IH] using (induction_ltof1 _ (@List.length ascii)).
  unfold ltof in IH. intros t H.
  destruct s as [|c s']; [discriminate|]. cbn [scan_string] in H.
  destruct (nat_of_ascii c <? 32)%nat; [discriminate|].
  destruct (Ascii.eqb c quote); [injection H as _ <-; simpl; lia|].
  destruct (Ascii.eqb c backslash).
  - destruct s' as [|e r']; [discriminate|].
    destruct (existsb (Ascii.eqb e) escape_letters).
    + destruct (scan_string r') as [[t' rest]|] eqn:E; [|discriminate].
      injection H as _ <-. apply IH in E; simpl; lia.
    + destruct (Ascii.eqb e "u"%char); [|discriminate].
      destruct r' as [|h1 [|h2 [|h3 [|h4 r'']]]]; try discriminate.
      destruct (is_hex h1 && is_hex h2 && is_hex h3 && is_hex h4); [|discriminate].
      destruct (scan_string r'') as [[t' rest]|] eqn:E; [|discriminate].
      injection H as _ <-. apply IH in E; simpl in *; lia.
  - destruct (scan_string s') as [[t' rest]|] eqn:E; [|discriminate].
    injection H as _ <-. apply IH in E; simpl; lia.
Qed.

Lemma scan_number_le (s r : list ascii) (m e : Z) :
  scan_number s = Some (m, e, r) -> (List.length r <= List.length s)%nat.
Proof.
  unfold scan_number. intros H.
  match type of H with context [match ?x with (_, _) => _ end] =>
    destruct x as [neg s1] eqn:E1 end.
  assert (L1 : (List.length s1 <= List.length s)%nat).
  { destruct s as [|c r0]; [injection E1 as _ <-; simpl; lia|].
    destruct (Ascii.eqb c "-"%char); injection E1 as _ <-; simpl; lia. }
  clear E1.
  match type of H with context [match ?x with Some _ => _ | None => _ end] =>
    destruct x as [[intd s2]|] eqn:E2; [|discriminate] end.
  assert (L2 : (List.length s2 <= List.length s1)%nat).
  { destruct s1 as [|c r0]; [discriminate|].
    destruct (Ascii.eqb c "0"%char); [injection E2 as _ <-; simpl; lia|].
    destruct (is_digit c) eqn:Hd; [|discriminate]. injection E2 as E2.
    pose proof (span_digits_le (c :: r0)) as L. cbn [span_digits] in L.
    rewrite Hd in L, E2. rewrite E2 in L. exact L. }
  clear E2.
  match type of H with context [match ?x with Some _ => _ | None => _ end] =>
    destruct x as [[fracd s3]|] eqn:E3; [|discriminate] end.
  assert (L3 : (List.length s3 <= List.length s2)%nat).
  { destruct s2 as [|c r0]; [injection E3 as _ <-; simpl; lia|].
    destruct (Ascii.eqb c "."%char); [|injection E3 as _ <-; simpl; lia].
    pose proof (span_digits_le r0) as L.
    destruct (span_digits r0) as [fd r'].
    destruct fd; [discriminate|]. injection E3 as _ <-. simpl in *. lia. }
  clear E3.
  match type of H with context [match ?x with Some _ => _ | None => _ end] =>
    destruct x as [[ev s4]|] eqn:E4; [|discriminate] end.
  injection H as _ _ <-.
  enough (List.length s4 <= List.length s3)%nat by lia.
  destruct s3 as [|c r0]; [injection E4 as _ <-; simpl; lia|].
  destruct (Ascii.eqb c "e"%char || Ascii.eqb c "E"%char);
    [|injection E4 as _ <-; simpl; lia].
  match type of E4 with context [match ?x with (_, _) => _ end] =>
    destruct x as [eneg r1] eqn:E5 end.
  assert (L5 : (List.length r1 <= List.length r0)%nat).
  { destruct r0 as [|c' r']; [injection E5 as _ <-; simpl; lia|].
    destruct (Ascii.eqb c' "-"%char); [injection E5 as _ <-; simpl; lia|].
    destruct (Ascii.eqb c' "+"%char); injection E5 as _ <-; simpl; lia. }
  pose proof (span_digits_le r1) as L.
  destruct (span_digits r1) as [ed r2].
  destruct ed; [discriminate|]. injection E4 as _ <-. simpl in *. lia.
Qed.

Lemma scan_elems_S (f : nat) (depth : Z) (s : list ascii) (acc : list json) :
  scan_elems (S f) depth s acc =
  match scan_value f depth s with
  | None => None
  | Some (v, r) =>
      match skip_ws r with
      | c :: r' =>
          if Ascii.eqb c ","%char then scan_elems f depth r' (v :: acc)
          else if Ascii.eqb c "]"%char then Some (JArray (rev (v :: acc)), r')
          else None
      | [] => None
      end
  end.
Proof. reflexivity. Qed.

Lemma scan_members_S (f : nat) (depth : Z) (s : list ascii)
  (acc : list (list ascii * json)) :
  scan_members (S f) depth s acc =
  match skip_ws s with
  | q :: r =>
      if Ascii.eqb q quote then
        match scan_string r with
        | None => None
        | Some (k, r1) =>
            match skip_ws r1 with
            | col :: r2 =>
                if Ascii.eqb col ":"%char then
                  match scan_value f depth r2 with
                  | None => None
                  | Some (v, r3) =>
                      match skip_ws r3 with
                      | c :: r4 =>
                          if Ascii.eqb c ","%char then
                            scan_members f depth r4 ((k, v) :: acc)
                          else if Ascii.eqb c "}"%char then
                            Some (JObject (rev ((k, v) :: acc)), r4)
                          else None
                      | [] => None
                      end
                  end
                else None
            | [] => None
            end
        end
      else None
  | [] => None
  end.
Proof. reflexivity. Qed.

(** What follows a scanned value is a suffix of the input. *)
Lemma scan_rest_le (f : nat) :
  (forall d s v r, scan_value f d s = Some (v, r) ->
     (List.length r <= List.length s)%nat) /\
  (forall d s v r, scan_array f d s = Some (v, r) ->
     (List.length r <= List.length s)%nat) /\
  (forall d s acc v r, scan_elems f d s acc = Some (v, r) ->
     (List.length r <= List.length s)%nat) /\
  (forall d s v r, scan_object f d s = Some (v, r) ->
     (List.length r <= List.length s)%nat) /\
  (forall d s acc v r, scan_members f d s acc = Some (v, r) ->
     (List.length r <= List.length s)%nat).
Proof.
  induction f as [|f (IHv & IHa & IHe & IHo & IHm)].
  { repeat split; intros; discriminate. }
  repeat split.
  - intros d s v r H. cbn [scan_value] in H.
    pose proof (skip_ws_le s) as Ls.
    destruct (skip_ws s) as [|c r0]; [discriminate|]. simpl in Ls.
    destruct (Ascii.eqb c "{"%char).
    { destruct (_ <? _); [discriminate|]. apply IHo in H. lia. }
    destruct (Ascii.eqb c "["%char).
    { destruct (_ <? _); [discriminate|]. apply IHa in H. lia. }
    destruct (Ascii.eqb c quote).
    { destruct (scan_string r0) as [[t rest]|] eqn:E; [|discriminate].
      injection H as _ <-. apply scan_string_lt in E. lia. }
    destruct (Ascii.eqb c "t"%char).
    { destruct (strip_prefix _ r0) as [rest|] eqn:E; [|discriminate].
      injection H as _ <-. apply strip_prefix_le in E. lia. }
    destruct (Ascii.eqb c "f"%char).
    { destruct (strip_prefix _ r0) as [rest|] eqn:E; [|discriminate].
      injection H as _ <-. apply strip_prefix_le in E. lia. }
    destruct (Ascii.eqb c "n"%char).
    { destruct (strip_prefix _ r0) as [rest|] eqn:E; [|discriminate].
      injection H as _ <-. apply strip_prefix_le in E. lia. }
    destruct (Ascii.eqb c "-"%char || is_digit c); [|discriminate].
    destruct (scan_number (c :: r0)) as [[[m e] rest]|] eqn:E; [|discriminate].
    injection H as _ <-. apply scan_number_le in E. simpl in E. lia.
  - intros d s v r H. cbn [scan_array] in H.
    pose proof (skip_ws_le s) as Ls.
    destruct (skip_ws s) as [|c r0]; [discriminate|]. simpl in Ls.
    destruct (Ascii.eqb c "]"%char); [injection H as _ <-; lia|].
    apply IHe in H. lia.
  - intros d s acc v r H. rewrite scan_elems_S in H.
    destruct (scan_value f d s) as [[v0 r0]|] eqn:E; [|discriminate].
    apply IHv in E.
    pose proof (skip_ws_le r0) as Ls.
    destruct (skip_ws r0) as [|c r1]; [discriminate|]. simpl in Ls.
    destruct (Ascii.eqb c ","%char); [apply IHe in H; lia|].
    destruct (Ascii.eqb c "]"%char); [injection H as _ <-; lia | discriminate].
  - intros d s v r H. cbn [scan_object] in H.
    pose proof (skip_ws_le s) as Ls.
    destruct (skip_ws s) as [|c r0]; [discriminate|]. simpl in Ls.
    destruct (Ascii.eqb c "}"%char); [injection H as _ <-; lia|].
    apply IHm in H. lia.
  - intros d s acc v r H. rewrite scan_members_S in H.
    pose proof (skip_ws_le s) as Ls.
    destruct (skip_ws s) as [|q r0]; [discriminate|]. simpl in Ls.
    destruct (Ascii.eqb q quote); [|discriminate].
    destruct (scan_string r0) as [[k r1]|] eqn:E1; [|discriminate].
    apply scan_string_lt in E1.
    pose proof (skip_ws_le r1) as L1.
    destruct (skip_ws r1) as [|col r2]; [discriminate|]. simpl in L1.
    destruct (Ascii.eqb col ":"%char); [|discriminate].
    destruct (scan_value f d r2) as [[v0 r3]|] eqn:E3; [|discriminate].
    apply IHv in E3.
    pose proof (skip_ws_le r3) as L3.
    destruct (skip_ws r3) as [|c r4]; [discriminate|]. simpl in L3.
    destruct (Ascii.eqb c ","%char); [apply IHm in H; lia|].
    destruct (Ascii.eqb c "}"%char); [injection H as _ <-; lia | discriminate].
Qed.

(** One more unit of fuel changes nothing once the fuel covers the input:
    [3 * len + 3] for a value, [3 * len + 5] after an opening bracket or
    brace, [3 * len + 4] for elements and members. *)
Lemma scan_fuel_S (f : nat) :
  (forall d s, (3 * List.length s + 3 <= f)%nat ->
     scan_value (S f) d s = scan_value f d s) /\
  (forall d s, (3 * List.length s + 5 <= f)%nat ->
     scan_array (S f) d s = scan_array f d s) /\
  (forall d s acc, (3 * List.length s + 4 <= f)%nat ->
     scan_elems (S f) d s acc = scan_elems f d s acc) /\
  (forall d s, (3 * List.length s + 5 <= f)%nat ->
     scan_object (S f) d s = scan_object f d s) /\
  (forall d s acc, (3 * List.length s + 4 <= f)%nat ->
     scan_members (S f) d s acc = scan_members f d s acc).
Proof.
  induction f as [|f (IHv & IHa & IHe & IHo & IHm)].
  { repeat split; intros; lia. }
  repeat split.
  - intros d s Hf. cbn [scan_value].
    pose proof (skip_ws_le s) as Ls.
    destruct (skip_ws s) as [|c r0]; [reflexivity|]. simpl in Ls.
    destruct (Ascii.eqb c "{"%char).
    { destruct (_ <? _); [reflexivity|]. apply IHo. lia. }
    destruct (Ascii.eqb c "["%char).
    { destruct (_ <? _); [reflexivity|]. apply IHa. lia. }
    reflexivity.
  - intros d s Hf. cbn [scan_array].
    destruct (skip_ws s) as [|c r0]; [reflexivity|].
    destruct (Ascii.eqb c "]"%char); [reflexivity|]. apply IHe. lia.
  - intros d s acc Hf. rewrite (scan_elems_S (S f)), (scan_elems_S f).
    rewrite IHv by lia.
    destruct (scan_value f d s) as [[v0 r0]|] eqn:E; [|reflexivity].
    apply (proj1 (scan_rest_le f)) in E.
    pose proof (skip_ws_le r0) as Ls.
    destruct (skip_ws r0) as [|c r1]; [reflexivity|]. simpl in Ls.
    destruct (Ascii.eqb c ","%char); [apply IHe; lia | reflexivity].
  - intros d s Hf. cbn [scan_object].
    destruct (skip_ws s) as [|c r0]; [reflexivity|].
    destruct (Ascii.eqb c "}"%char); [reflexivity|]. apply IHm. lia.
  - intros d s acc Hf. rewrite (scan_members_S (S f)), (scan_members_S f).
    pose proof (skip_ws_le s) as Ls.
    destruct (skip_ws s) as [|q r0]; [reflexivity|]. simpl in Ls.
    destruct (Ascii.eqb q quote); [|reflexivity].
    destruct (scan_string r0) as [[k r1]|] eqn:E1; [|reflexivity].
    apply scan_string_lt in E1.
    pose proof (skip_ws_le r1) as L1.
    destruct (skip_ws r1) as [|col r2]; [reflexivity|]. simpl in L1.
    destruct (Ascii.eqb col ":"%char); [|reflexivity].
    rewrite IHv by lia.
    destruct (scan_value f d r2) as [[v0 r3]|] eqn:E3; [|reflexivity].
    apply (proj1 (scan_rest_le f)) in E3.
    pose proof (skip_ws_le r3) as L3.
    destruct (skip_ws r3) as [|c r4]; [reflexivity|]. simpl in L3.
    destruct (Ascii.eqb c ","%char); [apply IHm; lia | reflexivity].
Qed.

(** [decode]'s fuel is enough: any larger amount gives the same result, so
    [decode] is the unbounded recursive descent of encoding/json. *)
Lemma decode_fuel (body : list ascii) (k : nat) :
  scan_value (3 * List.length body + 3 + k) 0 body =
  scan_value (3 * List.length body + 3) 0 body.
Proof.
  induction k as [|k IH]; [rewrite Nat.add_0_r; reflexivity|].
  rewrite Nat.add_succ_r, (proj1 (scan_fuel_S _)) by lia. exact IH.
Qed.

(** ** Bytes after the first value *)

Lemma skip_ws_app (s t r : list ascii) (c : ascii) :
  skip_ws s = c :: r -> skip_ws (s ++ t) = c :: r ++ t.
Proof.
  induction s as [|c0 s IH]; [discriminate|]. cbn [skip_ws app].
  destruct (is_space c0); [exact IH | intros H; injection H as -> ->; reflexivity].
Qed.

Lemma strip_prefix_app (p s r t : list ascii) :
  strip_prefix p s = Some r -> strip_prefix p (s ++ t) = Some (r ++ t).
Proof.
  revert s. induction p as [|a p IH]; intros s H.
  - injection H as <-. reflexivity.
  - destruct s as [|c s]; [discriminate|]. cbn [strip_prefix app] in *.
    destruct (Ascii.eqb a c); [apply IH, H | discriminate].
Qed.

Lemma scan_string_app (s x r t : list ascii) :
  scan_string s = Some (x, r) -> scan_string (s ++ t) = Some (x, r ++ t).
Proof.
  remember (List.length s) as n eqn:Hn. assert (Hle : (List.length s <= n)%nat) by lia.
  clear Hn. revert s x Hle.
  induction n as [|n IH]; intros s x Hle H.
  { destruct s; [discriminate | cbn in Hle; lia]. }
  destruct s as [|c s']; [discriminate|]. cbn [List.length] in Hle. cbn [scan_string app] in *.
  destruct (nat_of_ascii c <? 32)%nat; [discriminate|].
  destruct (Ascii.eqb c quote); [injection H as <- <-; reflexivity|].
  destruct (Ascii.eqb c backslash).
  - destruct s' as [|e r']; [discriminate|]. cbn [app]. cbn [List.length] in Hle.
    destruct (existsb (Ascii.eqb e) escape_letters).
    + destruct (scan_string r') as [[x' rest]|] eqn:E; [|discriminate].
      injection H as <- <-. rewrite (IH r' x') by (lia || exact E). reflexivity.
    + destruct (Ascii.eqb e "u"%char); [|discriminate].
      destruct r' as [|h1 [|h2 [|h3 [|h4 r'']]]]; try discriminate. cbn [app].
      cbn [List.length] in Hle.
      destruct (is_hex h1 && is_hex h2 && is_hex h3 && is_hex h4); [|discriminate].
      destruct (scan_string r'') as [[x' rest]|] eqn:E; [|discriminate].
      injection H as <- <-. rewrite (IH r'' x') by (lia || exact E). reflexivity.
  - destruct (scan_string s') as [[x' rest]|] eqn:E; [|discriminate].
    injection H as <- <-. rewrite (IH s' x') by (lia || exact E). reflexivity.
Qed.

Lemma span_digits_app (s d r t : list ascii) :
  span_digits s = (d, r) -> (r <> [] \/ number_stop t) ->
  span_digits (s ++ t) = (d, r ++ t).
Proof.
  revert d. induction s as [|c s IH]; intros d H Hc.
  - injection H as <- <-. destruct Hc as [Hc|Hc]; [contradiction|].
    destruct t as [|c t]; [reflexivity|]. cbn in Hc |- *.
    unfold continues_number in Hc. destruct (is_digit c); [discriminate | reflexivity].
  - cbn [span_digits app] in *. destruct (is_digit c).
    + destruct (span_digits s) as [d' r'] eqn:E. injection H as <- ->.
      rewrite (IH d' eq_refl Hc). reflexivity.
    + injection H as <- <-. reflexivity.
Qed.

Lemma number_int_app (s1 intd s2 t : list ascii) :
  match s1 with
  | c :: r =>
      if Ascii.eqb c "0"%char then Some ([c], r)
      else if is_digit c then Some (span_digits s1)
      else None
  | [] => None
  end = Some (intd, s2) ->
  (s2 <> [] \/ number_stop t) ->
  match s1 ++ t with
  | c :: r =>
      if Ascii.eqb c "0"%char then Some ([c], r)
      else if is_digit c then Some (span_digits (s1 ++ t))
      else None
  | [] => None
  end = Some (intd, s2 ++ t).
Proof.
  intros H Hc. destruct s1 as [|c r]; [discriminate|]. cbn [app].
  destruct (Ascii.eqb c "0"%char); [injection H as <- <-; reflexivity|].
  destruct (is_digit c); [|discriminate].
  assert (H' : span_digits (c :: r) = (intd, s2)) by (injection H as H; exact H).
  change (c :: r ++ t) with ((c :: r) ++ t).
  rewrite (span_digits_app _ _ _ _ H' Hc). reflexivity.
Qed.

Lemma number_frac_app (s2 fracd s3 t : list ascii) :
  match s2 with
  | c :: r =>
      if Ascii.eqb c "."%char then
        let '(fd, r') := span_digits r in
        match fd with [] => None | _ => Some (fd, r') end
      else Some ([], s2)
  | [] => Some ([], s2)
  end = Some (fracd, s3) ->
  (s3 <> [] \/ number_stop t) ->
  match s2 ++ t with
  | c :: r =>
      if Ascii.eqb c "."%char then
        let '(fd, r') := span_digits r in
        match fd with [] => None | _ => Some (fd, r') end
      else Some ([], s2 ++ t)
  | [] => Some ([], s2 ++ t)
  end = Some (fracd, s3 ++ t)
  /\ (s2 <> [] \/ number_stop t).
Proof.
  intros H Hc. destruct s2 as [|c r].
  - injection H as <- <-. destruct Hc as [Hc|Hc]; [contradiction|]. split; [|right; exact Hc].
    destruct t as [|c t]; [reflexivity|]. cbn [app].
    cbn in Hc. unfold continues_number in Hc.
    destruct (Ascii.eqb c "."%char); [rewrite orb_true_r in Hc; discriminate|].
    destruct (is_digit c); reflexivity.
  - split; [|left; discriminate]. cbn [app].
    destruct (Ascii.eqb c "."%char); [|injection H as <- <-; reflexivity].
    destruct (span_digits r) as [fd r'] eqn:E.
    destruct fd as [|d fd]; [discriminate|]. injection H as <- <-.
    rewrite (span_digits_app _ _ _ _ E Hc). reflexivity.
Qed.

Lemma number_exp_app (s3 s4 t : list ascii) (ev : Z) :
  match s3 with
  | c :: r =>
      if Ascii.eqb c "e"%char || Ascii.eqb c "E"%char then
        let '(eneg, r1) :=
          match r with
          | c' :: r' =>
              if Ascii.eqb c' "-"%char then (true, r')
              else if Ascii.eqb c' "+"%char then (false, r')
              else (false, r)
          | [] => (false, r)
          end in
        let '(ed, r2) := span_digits r1 in
        match ed with
        | [] => None
        | _ => Some ((if eneg then - digits_value ed else digits_value ed), r2)
        end
      else Some (0, s3)
  | [] => Some (0, s3)
  end = Some (ev, s4) ->
  (s4 <> [] \/ number_stop t) ->
  match s3 ++ t with
  | c :: r =>
      if Ascii.eqb c "e"%char || Ascii.eqb c "E"%char then
        let '(eneg, r1) :=
          match r with
          | c' :: r' =>
              if Ascii.eqb c' "-"%char then (true, r')
              else if Ascii.eqb c' "+"%char then (false, r')
              else (false, r)
          | [] => (false, r)
          end in
        let '(ed, r2) := span_digits r1 in
        match ed with
        | [] => None
        | _ => Some ((if eneg then - digits_value ed else digits_value ed), r2)
        end
      else Some (0, s3 ++ t)
  | [] => Some (0, s3 ++ t)
  end = Some (ev, s4 ++ t)
  /\ (s3 <> [] \/ number_stop t).
Proof.
  intros H Hc. destruct s3 as [|c r].
  - injection H as <- <-. destruct Hc as [Hc|Hc]; [contradiction|]. split; [|right; exact Hc].
    destruct t as [|c t]; [reflexivity|]. cbn [app].
    cbn in Hc. unfold continues_number in Hc.
    destruct (Ascii.eqb c "e"%char); [rewrite orb_true_r in Hc; discriminate|].
    destruct (Ascii.eqb c "E"%char); [rewrite orb_true_r in Hc; discriminate|].
    reflexivity.
  - split; [|left; discriminate]. cbn [app].
    destruct (Ascii.eqb c "e"%char || Ascii.eqb c "E"%char); [|injection H as <- <-; reflexivity].
    destruct r as [|c' r'].
    + cbn in H. discriminate.
    + cbn [app].
      assert (Hs : forall r1 eneg,
        (eneg, r1) = (if Ascii.eqb c' "-"%char then (true, r')
                      else if Ascii.eqb c' "+"%char then (false, r')
                      else (false, c' :: r')) ->
        (eneg, r1 ++ t) = (if Ascii.eqb c' "-"%char then (true, r' ++ t)
                           else if Ascii.eqb c' "+"%char then (false, r' ++ t)
                           else (false, c' :: r' ++ t))).
      { intros r1 eneg E. destruct (Ascii.eqb c' "-"%char); [injection E as -> ->; reflexivity|].
        destruct (Ascii.eqb c' "+"%char); injection E as -> ->; reflexivity. }
      destruct (if Ascii.eqb c' "-"%char then (true, r')
                else if Ascii.eqb c' "+"%char then (false, r')
                else (false, c' :: r')) as [eneg r1] eqn:E1.
      rewrite <- (Hs r1 eneg eq_refl).
      destruct (span_digits r1) as [ed r2] eqn:E2.
      destruct ed as [|d ed]; [discriminate|]. injection H as <- <-.
      rewrite (span_digits_app _ _ _ _ E2 Hc). reflexivity.
Qed.

Lemma scan_number_app (s t r : list ascii) (m e : Z) :
  scan_number s = Some (m, e, r) -> (r <> [] \/ number_stop t) ->
  scan_number (s ++ t) = Some (m, e, r ++ t).
Proof.
  intros H Hc. unfold scan_number in *.
  destruct s as [|c0 s0]; [cbn in H; discriminate|]. cbn [app].
  assert (Hsg : forall neg s1,
    (if Ascii.eqb c0 "-"%char then (true, s0) else (false, c0 :: s0)) = (neg, s1) ->
    (if Ascii.eqb c0 "-"%char then (true, s0 ++ t) else (false, c0 :: s0 ++ t)) = (neg, s1 ++ t)).
  { intros neg s1 E. destruct (Ascii.eqb c0 "-"%char); injection E as <- <-; reflexivity. }
  destruct (if Ascii.eqb c0 "-"%char then (true, s0) else (false, c0 :: s0)) as [neg s1] eqn:E0.
  rewrite (Hsg neg s1 eq_refl). cbv beta iota zeta in H |- *. revert H.
  destruct (match s1 with
            | c :: r =>
                if Ascii.eqb c "0"%char then Some ([c], r)
                else if is_digit c then Some (span_digits s1)
                else None
            | [] => None
            end) as [[intd s2]|] eqn:Ei; [|discriminate].
  destruct (match s2 with
            | c :: r =>
                if Ascii.eqb c "."%char then
                  let '(fd, r') := span_digits r in
                  match fd with [] => None | _ => Some (fd, r') end
                else Some ([], s2)
            | [] => Some ([], s2)
            end) as [[fracd s3]|] eqn:Ef; [|discriminate].
  destruct (match s3 with
            | c :: r =>
                if Ascii.eqb c "e"%char || Ascii.eqb c "E"%char then
                  let '(eneg, r1) :=
                    match r with
                    | c' :: r' =>
                        if Ascii.eqb c' "-"%char then (true, r')
                        else if Ascii.eqb c' "+"%char then (false, r')
                        else (false, r)
                    | [] => (false, r)
                    end in
                  let '(ed, r2) := span_digits r1 in
                  match ed with
                  | [] => None
                  | _ => Some ((if eneg then - digits_value ed else digits_value ed), r2)
                  end
                else Some (0, s3)
            | [] => Some (0, s3)
            end) as [[ev s4]|] eqn:Ee; [|discriminate].
  intros H. injection H as Hm He Hr. subst r.
  destruct (number_exp_app s3 s4 t ev Ee Hc) as [Hexp C3].
  destruct (number_frac_app s2 fracd s3 t Ef C3) as [Hfrac C2].
  rewrite (number_int_app s1 intd s2 t Ei C2). cbv beta iota.
  rewrite Hfrac. cbv beta iota. rewrite Hexp. cbv beta iota.
  rewrite <- Hm, <- He. reflexivity.
Qed.

(** Scanning with more fuel gives the same successful result. *)
Lemma scan_mono (f : nat) :
  (forall d s x, scan_value f d s = Some x -> scan_value (S f) d s = Some x) /\
  (forall d s x, scan_array f d s = Some x -> scan_array (S f) d s = Some x) /\
  (forall d s acc x, scan_elems f d s acc = Some x -> scan_elems (S f) d s acc = Some x) /\
  (forall d s x, scan_object f d s = Some x -> scan_object (S f) d s = Some x) /\
  (forall d s acc x, scan_members f d s acc = Some x -> scan_members (S f) d s acc = Some x).
Proof.
  induction f as [|f (IHv & IHa & IHe & IHo & IHm)].
  { repeat split; intros; discriminate. }
  repeat split.
  - intros d s x H. cbn [scan_value] in H |- *.
    destruct (skip_ws s) as [|c r0]; [discriminate|].
    destruct (Ascii.eqb c "{"%char).
    { destruct (_ <? _); [discriminate|]. apply IHo, H. }
    destruct (Ascii.eqb c "["%char).
    { destruct (_ <? _); [discriminate|]. apply IHa, H. }
    exact H.
  - intros d s x H. cbn [scan_array] in H |- *.
    destruct (skip_ws s) as [|c r0]; [discriminate|].
    destruct (Ascii.eqb c "]"%char); [exact H | apply IHe, H].
  - intros d s acc x H. rewrite scan_elems_S in H |- *.
    destruct (scan_value f d s) as [[v0 r0]|] eqn:E; [|discriminate].
    rewrite (IHv _ _ _ E).
    destruct (skip_ws r0) as [|c r1]; [discriminate|].
    destruct (Ascii.eqb c ","%char); [apply IHe, H | exact H].
  - intros d s x H. cbn [scan_object] in H |- *.
    destruct (skip_ws s) as [|c r0]; [discriminate|].
    destruct (Ascii.eqb c "}"%char); [exact H | apply IHm, H].
  - intros d s acc x H. rewrite scan_members_S in H |- *.
    destruct (skip_ws s) as [|q r0]; [discriminate|].
    destruct (Ascii.eqb q quote); [|discriminate].
    destruct (scan_string r0) as [[k r1]|]; [|discriminate].
    destruct (skip_ws r1) as [|col r2]; [discriminate|].
    destruct (Ascii.eqb col ":"%char); [|discriminate].
    destruct (scan_value f d r2) as [[v0 r3]|] eqn:E3; [|discriminate].
    rewrite (IHv _ _ _ E3).
    destruct (skip_ws r3) as [|c r4]; [discriminate|].
    destruct (Ascii.eqb c ","%char); [apply IHm, H | exact H].
Qed.

Lemma scan_value_more (f k : nat) (d : Z) (s : list ascii) (x : json * list ascii) :
  scan_value f d s = Some x -> scan_value (f + k) d s = Some x.
Proof.
  intros H. induction k as [|k IH]; [rewrite Nat.add_0_r; exact H|].
  rewrite Nat.add_succ_r. apply (proj1 (scan_mono _)), IH.
Qed.

(** Bytes after a scanned value are not looked at, except right after a
    number, whose literal ends at the first byte that cannot continue it. *)
Lemma scan_app (f : nat) :
  (forall d s t v r, scan_value f d s = Some (v, r) ->
     (r <> [] \/ match v with JNumber _ _ => number_stop t | _ => True end) ->
     scan_value f d (s ++ t) = Some (v, r ++ t)) /\
  (forall d s t v r, scan_array f d s = Some (v, r) ->
     scan_array f d (s ++ t) = Some (v, r ++ t)) /\
  (forall d s t acc v r, scan_elems f d s acc = Some (v, r) ->
     scan_elems f d (s ++ t) acc = Some (v, r ++ t)) /\
  (forall d s t v r, scan_object f d s = Some (v, r) ->
     scan_object f d (s ++ t) = Some (v, r ++ t)) /\
  (forall d s t acc v r, scan_members f d s acc = Some (v, r) ->
     scan_members f d (s ++ t) acc = Some (v, r ++ t)).
Proof.
  induction f as [|f (IHv & IHa & IHe & IHo & IHm)].
  { repeat split; intros; discriminate. }
  repeat split.
  - intros d s t v r H Hc. cbn [scan_value] in H |- *.
    destruct (skip_ws s) as [|c r0] eqn:Es; [discriminate|].
    rewrite (skip_ws_app s t r0 c Es).
    destruct (Ascii.eqb c "{"%char).
    { destruct (_ <? _); [discriminate|]. apply IHo, H. }
    destruct (Ascii.eqb c "["%char).
    { destruct (_ <? _); [discriminate|]. apply IHa, H. }
    destruct (Ascii.eqb c quote).
    { destruct (scan_string r0) as [[x rest]|] eqn:E; [|discriminate].
      injection H as <- <-. rewrite (scan_string_app _ _ _ t E). reflexivity. }
    destruct (Ascii.eqb c "t"%char).
    { destruct (strip_prefix _ r0) as [rest|] eqn:E; [|discriminate].
      injection H as <- <-. rewrite (strip_prefix_app _ _ _ t E). reflexivity. }
    destruct (Ascii.eqb c "f"%char).
    { destruct (strip_prefix _ r0) as [rest|] eqn:E; [|discriminate].
      injection H as <- <-. rewrite (strip_prefix_app _ _ _ t E). reflexivity. }
    destruct (Ascii.eqb c "n"%char).
    { destruct (strip_prefix _ r0) as [rest|] eqn:E; [|discriminate].
      injection H as <- <-. rewrite (strip_prefix_app _ _ _ t E). reflexivity. }
    destruct (Ascii.eqb c "-"%char || is_digit c); [|discriminate].
    destruct (scan_number (c :: r0)) as [[[m e] rest]|] eqn:E; [|discriminate].
    injection H as <- <-. change (c :: r0 ++ t) with ((c :: r0) ++ t).
    rewrite (scan_number_app _ t _ _ _ E Hc). reflexivity.
  - intros d s t v r H. cbn [scan_array] in H |- *.
    destruct (skip_ws s) as [|c r0] eqn:Es; [discriminate|].
    rewrite (skip_ws_app s t r0 c Es).
    destruct (Ascii.eqb c "]"%char); [injection H as <- <-; reflexivity | apply IHe, H].
  - intros d s t acc v r H. rewrite scan_elems_S in H |- *.
    destruct (scan_value f d s) as [[v0 r0]|] eqn:E; [|discriminate].
    destruct (skip_ws r0) as [|c r1] eqn:Ew; [discriminate|].
    assert (Hne : r0 <> []) by (intros ->; discriminate Ew).
    rewrite (IHv d s t v0 r0 E (or_introl Hne)), (skip_ws_app r0 t r1 c Ew).
    destruct (Ascii.eqb c ","%char); [apply IHe, H|].
    destruct (Ascii.eqb c "]"%char); [injection H as <- <-; reflexivity | discriminate].
  - intros d s t v r H. cbn [scan_object] in H |- *.
    destruct (skip_ws s) as [|c r0] eqn:Es; [discriminate|].
    rewrite (skip_ws_app s t r0 c Es).
    destruct (Ascii.eqb c "}"%char); [injection H as <- <-; reflexivity | apply IHm, H].
  - intros d s t acc v r H. rewrite scan_members_S in H |- *.
    destruct (skip_ws s) as [|q r0] eqn:Es; [discriminate|].
    rewrite (skip_ws_app s t r0 q Es).
    destruct (Ascii.eqb q quote); [|discriminate].
    destruct (scan_string r0) as [[k r1]|] eqn:E1; [|discriminate].
    rewrite (scan_string_app _ _ _ t E1).
    destruct (skip_ws r1) as [|col r2] eqn:Ew1; [discriminate|].
    rewrite (skip_ws_app r1 t r2 col Ew1).
    destruct (Ascii.eqb col ":"%char); [|discriminate].
    destruct (scan_value f d r2) as [[v0 r3]|] eqn:E3; [|discriminate].
    destruct (skip_ws r3) as [|c r4] eqn:Ew3; [discriminate|].
    assert (Hne : r3 <> []) by (intros ->; discriminate Ew3).
    rewrite (IHv d r2 t v0 r3 E3 (or_introl Hne)), (skip_ws_app r3 t r4 c Ew3).
    destruct (Ascii.eqb c ","%char); [apply IHm, H|].
    destruct (Ascii.eqb c "}"%char); [injection H as <- <-; reflexivity | discriminate].
Qed.

Lemma decode_app (body t : list ascii) (v : json) :
  decode body = Some v ->
  match v with JNumber _ _ => number_stop t | _ => True end ->
  decode (body ++ t) = Some v.
Proof.
  intros H Hc. unfold decode in *.
  destruct (scan_value (3 * List.length body + 3) 0 body) as [[v0 r]|] eqn:E; [|discriminate].
  destruct (has_overflow v0) eqn:Ho; [discriminate|]. injection H as <-.
  pose proof (proj1 (scan_app _) 0 body t v0 r E (or_intror Hc)) as Ht.
  apply (scan_value_more _ (3 * List.length t)) in Ht.
  replace (3 * List.length body + 3 + 3 * List.length t)%nat
    with (3 * List.length (body ++ t) + 3)%nat in Ht by (rewrite length_app; lia).
  rewrite Ht, Ho. reflexivity.
Qed.

(** ** C8: the [/webhook] handler *)

Lemma ends_in_snoc (c d : ascii) (s : list ascii) : ends_in c (s ++ [d]) -> d = c.
Proof. intros [p Hp]. apply app_inj_tail in Hp as [_ H]. exact H. Qed.

Lemma ends_in_app (c : ascii) (s t : list ascii) :
  t <> [] -> ends_in c (s ++ t) -> ends_in c t.
Proof.
  intros Ht Hst. destruct (exists_last Ht) as (t' & d & ->).
  rewrite app_assoc in Hst. apply ends_in_snoc in Hst as ->. exists t'. reflexivity.
Qed.

Lemma digits_not_x (t : list ascii) : t <> [] -> Forall rfc_digit t -> ~ ends_in "x"%char t.
Proof.
  intros Hne Hf [p ->]. apply Forall_app in Hf as [_ Hf].
  inversion Hf as [|? ? Hx]. unfold rfc_digit in Hx. vm_compute in Hx. lia.
Qed.

Ltac close_snoc :=
  let H := fresh in
  intros H; rewrite ?app_comm_cons in H; apply ends_in_snoc in H; discriminate.

Lemma rfc_value_not_x (v : list ascii) :
  rfc_value v -> v <> [] /\ ~ ends_in "x"%char v.
Proof.
  intros Hv. destruct Hv as [| | |s Hn|s Hs|w _|s _|w _|s _].
  - split; [discriminate|]. change (list_ascii_of_string "false")
      with ((list_ascii_of_string "fals") ++ ["e"%char]). close_snoc.
  - split; [discriminate|]. change (list_ascii_of_string "null")
      with ((list_ascii_of_string "nul") ++ ["l"%char]). close_snoc.
  - split; [discriminate|]. change (list_ascii_of_string "true")
      with ((list_ascii_of_string "tru") ++ ["e"%char]). close_snoc.
  - destruct Hn as (m & i & f & e & -> & _ & Hi & Hf & He).
    assert (Hid : i <> [] /\ Forall rfc_digit i).
    { destruct Hi as [->|(d & ds & -> & Hd & Hds)].
      - split; [discriminate|]. constructor; [unfold rfc_digit; vm_compute; lia | constructor].
      - split; [discriminate|]. constructor; [unfold rfc_digit; lia | exact Hds]. }
    split.
    + destruct m; [destruct Hid as [Hne _]; destruct i; [contradiction | discriminate]
                  | discriminate].
    + rewrite !app_assoc. intros Hx.
      destruct He as [->|(c & sg & ds & -> & _ & _ & Hne & Hds)].
      * rewrite app_nil_r in Hx.
        destruct Hf as [->|(ds & -> & Hne & Hds)].
        -- rewrite app_nil_r in Hx. apply ends_in_app in Hx; [|apply Hid].
           revert Hx. apply digits_not_x; apply Hid.
        -- apply ends_in_app in Hx; [|discriminate].
           change ("."%char :: ds) with (["."%char] ++ ds) in Hx.
           apply ends_in_app in Hx; [|exact Hne]. revert Hx. apply digits_not_x; assumption.
      * apply ends_in_app in Hx; [|discriminate].
        change (c :: sg ++ ds) with ((c :: sg) ++ ds) in Hx.
        apply ends_in_app in Hx; [|exact Hne]. revert Hx. apply digits_not_x; assumption.
  - destruct Hs as (body & -> & _). split; [discriminate | close_snoc].
  - split; [discriminate | close_snoc].
  - split; [discriminate | close_snoc].
  - split; [discriminate | close_snoc].
  - split; [discriminate | close_snoc].
Qed.

(** A value followed by a stray byte is not a JSON text. *)
Lemma not_json_text_trailing_byte : ~ json_text (list_ascii_of_string "{}x").
Proof.
  intros (a & v & b & Hs & _ & Hv & Hb).
  destruct (rfc_value_not_x v Hv) as [Hne Hnx].
  assert (Hx : ends_in "x"%char (a ++ v ++ b)) by (rewrite <- Hs; exists ["{"%char; "}"%char]; reflexivity).
  destruct b as [|c b'].
  - rewrite app_nil_r in Hx. apply ends_in_app in Hx; [contradiction | exact Hne].
  - rewrite app_assoc in Hx. apply ends_in_app in Hx as [p Hp]; [|discriminate].
    unfold rfc_ws in Hb. rewrite Hp in Hb. apply Forall_app in Hb as [_ Hb].
    inversion Hb as [|? ? Hw]. unfold rfc_ws_char in Hw.
    destruct Hw as [Hw|[Hw|[Hw|Hw]]]; discriminate.
Qed.

(** [1e400] is a JSON text: the RFC's number grammar has no range. *)
Lemma json_text_1e400 : json_text (list_ascii_of_string "1e400").
Proof.
  exists [], (list_ascii_of_string "1e400"), [].
  split; [reflexivity|]. split; [constructor|]. split; [|constructor].
  apply rfc_num. exists [], ["1"%char], [], ("e"%char :: [] ++ list_ascii_of_string "400").
  split; [reflexivity|]. split; [left; reflexivity|]. split.
  - right. exists "1"%char, []. split; [reflexivity|]. split; [vm_compute; lia | constructor].
  - split; [left; reflexivity|]. right. exists "e"%char, [], (list_ascii_of_string "400").
    split; [reflexivity|]. split; [left; reflexivity|]. split; [left; reflexivity|].
    split; [discriminate|]. repeat constructor; unfold rfc_digit; vm_compute; lia.
Qed.

(** Claim C8 (as amended): a method other than POST gets 405 and leaves the
    store unchanged; with POST, a body the decoder rejects gets 400 and
    leaves the store unchanged, and a body it accepts has its first JSON
    value stored through Add and is answered 200 with the message and the
    assigned ID. Acceptance is not JSON validity: the decoder ([decode])
    reads only the first value, so appending any bytes [t] to an accepted
    body changes neither the reply nor the new store, provided the value is
    not a bare number or [t] does not start with a digit, ['.'], ['e'] or
    ['E'] (bytes that would continue the number). *)
Theorem webhookHandler_spec (ws : WebhookStore) (method : string)
  (reqBody : list ascii) (now : Z) :
  (method <> "POST"%string ->
   webhookHandler ws method reqBody now
   = (mkResponse StatusMethodNotAllowed (BodyError "Method not allowed"), ws))
  /\ (decode reqBody = None ->
      webhookHandler ws "POST" reqBody now
      = (mkResponse StatusBadRequest (BodyError "Bad request"), ws))
  /\ (forall v, decode reqBody = Some v ->
      webhookHandler ws "POST" reqBody now
      = (mkResponse StatusOK
           (BodyReceived "Webhook received and stored successfully" (snd (Add ws v now))),
         fst (Add ws v now)))
  /\ (forall v t, decode reqBody = Some v ->
      match v with JNumber _ _ => number_stop t | _ => True end ->
      webhookHandler ws "POST" (reqBody ++ t) now = webhookHandler ws "POST" reqBody now).
Proof.
  split; [|split; [|split]].
  - intros Hm. unfold webhookHandler.
    destruct (String.eqb_spec method "POST"); [contradiction | reflexivity].
  - intros Hd. unfold webhookHandler. rewrite Hd. reflexivity.
  - intros v Hd. unfold webhookHandler. rewrite Hd. reflexivity.
  - intros v t Hd Hc. unfold webhookHandler. rewrite (decode_app _ _ _ Hd Hc), Hd. reflexivity.
Qed.

Lemma webhookHandler_spec_witness :
  decode (list_ascii_of_string "[true]") = Some (JArray [JBool true])
  /\ webhookHandler store "POST" (list_ascii_of_string "[true]") 0
     = (mkResponse StatusOK (BodyReceived "Webhook received and stored successfully" 1),
        fst (Add store (JArray [JBool true]) 0))
  /\ webhookHandler store "POST" (list_ascii_of_string "[true]" ++ list_ascii_of_string "x") 0
     = webhookHandler store "POST" (list_ascii_of_string "[true]") 0.
Proof.
  assert (Hd : decode (list_ascii_of_string "[true]") = Some (JArray [JBool true]))
    by reflexivity.
  pose proof (webhookHandler_spec store "POST" (list_ascii_of_string "[true]") 0)
    as (_ & _ & H3 & H4).
  split; [exact Hd|]. split; [exact (H3 _ Hd)|].
  exact (H4 _ (list_ascii_of_string "x") Hd I).
Defined.

(** Claim C8 as stated fails both ways: the JSON text [1e400] is rejected
    with 400 (its number overflows [float64]), and [{}x], which is not a
    JSON text, is accepted with 200 and stored (the decoder stops after the
    first value). *)
Lemma webhook_valid_json_mismatch :
  json_text (list_ascii_of_string "1e400")
  /\ webhookHandler store "POST" (list_ascii_of_string "1e400") 0
     = (mkResponse StatusBadRequest (BodyError "Bad request"), store)
  /\ ~ json_text (list_ascii_of_string "{}x")
  /\ webhookHandler store "POST" (list_ascii_of_string "{}x") 0
     = (mkResponse StatusOK (BodyReceived "Webhook received and stored successfully" 1),
        fst (Add store (JObject []) 0)).
Proof.
  split; [exact json_text_1e400|]. split; [vm_compute; reflexivity|].
  split; [exact not_json_text_trailing_byte|]. vm_compute. reflexivity.
Qed.

(** ** Decimal formatting and [strconv.Atoi] *)

Lemma digit_char (k : nat) : (k < 10)%nat ->
  is_digit (ascii_of_nat (48 + k)) = true
  /\ digit_value (ascii_of_nat (48 + k)) = Z.of_nat k.
Proof.
  intros Hk. unfold is_digit, digit_value.
  rewrite nat_ascii_embedding by lia.
  split; [apply andb_true_intro; split; apply Nat.leb_le; lia | f_equal; lia].
Qed.

Lemma digits_value_app (d e : list ascii) :
  digits_value (d ++ e) = fold_left (fun acc c => acc * 10 + digit_value c) e (digits_value d).
Proof. unfold digits_value. apply fold_left_app. Qed.

Lemma digits_value_one (d : ascii) : digits_value [d] = digit_value d.
Proof. reflexivity. Qed.

Lemma utoa_aux_S (f : nat) (u : Z) (acc : list ascii) :
  utoa_aux (S f) u acc =
  if u <? 10 then ascii_of_nat (48 + Z.to_nat (u mod 10)) :: acc
  else utoa_aux f (u / 10) (ascii_of_nat (48 + Z.to_nat (u mod 10)) :: acc).
Proof. reflexivity. Qed.

Lemma utoa_aux_spec (f : nat) (u : Z) (acc : list ascii) :
  0 <= u < 10 ^ Z.of_nat (S f) ->
  exists ds, utoa_aux (S f) u acc = ds ++ acc /\ ds <> []
    /\ forallb is_digit ds = true /\ digits_value ds = u
    /\ (0 < u -> hd "0"%char ds <> "0"%char).
Proof.
  revert u acc. induction f as [|f IH]; intros u acc Hu;
    rewrite utoa_aux_S;
    destruct (digit_char (Z.to_nat (u mod 10)) ltac:(pose proof (Z.mod_pos_bound u 10); lia))
      as [Hd Hv];
    rewrite Z2Nat.id in Hv by (pose proof (Z.mod_pos_bound u 10); lia);
    remember (ascii_of_nat (48 + Z.to_nat (u mod 10))) as d eqn:Ed; clear Ed.
  - assert (Hu10 : u < 10) by (change (10 ^ Z.of_nat 1) with 10 in Hu; lia).
    rewrite (proj2 (Z.ltb_lt u 10) Hu10).
    rewrite Z.mod_small in Hv by lia.
    exists [d]. repeat split.
    + discriminate.
    + cbn [forallb]. rewrite Hd. reflexivity.
    + rewrite digits_value_one. exact Hv.
    + intros Hp. cbn [hd]. intros E. subst d. change (digit_value "0"%char) with 0 in Hv. lia.
  - destruct (Z.ltb_spec u 10) as [Hlt|Hge].
    + rewrite Z.mod_small in Hv by lia.
      exists [d]. repeat split.
      * discriminate.
      * cbn [forallb]. rewrite Hd. reflexivity.
      * rewrite digits_value_one. exact Hv.
      * intros Hp. cbn [hd]. intros E. subst d. change (digit_value "0"%char) with 0 in Hv. lia.
    + destruct (IH (u / 10) (d :: acc)) as (ds & Heq & Hne & Hall & Hval & Hhd).
      { split; [apply Z.div_pos; lia|].
        apply Z.div_lt_upper_bound; [lia|].
        rewrite Nat2Z.inj_succ, Z.pow_succ_r in Hu by lia. lia. }
      exists (ds ++ [d]). repeat split.
      * rewrite Heq, <- app_assoc. reflexivity.
      * destruct ds; [contradiction|discriminate].
      * rewrite forallb_app, Hall. cbn [forallb]. rewrite Hd. reflexivity.
      * rewrite digits_value_app, Hval. cbn [fold_left]. rewrite Hv.
        pose proof (Z.div_mod u 10). lia.
      * intros _. destruct ds as [|c ds']; [contradiction|]. cbn [app hd].
        apply Hhd. apply Z.div_str_pos. lia.
Qed.

(** [itoa] of a non-negative [int] is a non-empty run of digits without a
    leading zero (except for 0 itself), whose value is the number. *)
Lemma utoa_int (u : Z) : 0 <= u <= 2 ^ 63 ->
  exists ds, utoa_aux 20 u [] = ds /\ ds <> [] /\ forallb is_digit ds = true
    /\ digits_value ds = u /\ (0 < u -> hd "0"%char ds <> "0"%char).
Proof.
  intros Hu. destruct (utoa_aux_spec 19 u []) as (ds & H & Hrest).
  { split; [lia|]. eapply Z.le_lt_trans; [apply Hu|]. reflexivity. }
  exists ds. rewrite app_nil_r in H. auto.
Qed.

Lemma digit_not_sign (c : ascii) : is_digit c = true ->
  Ascii.eqb c "-"%char = false /\ Ascii.eqb c "+"%char = false.
Proof.
  intros H. split.
  - destruct (Ascii.eqb_spec c "-"%char); [subst; discriminate H | reflexivity].
  - destruct (Ascii.eqb_spec c "+"%char); [subst; discriminate H | reflexivity].
Qed.

(** [Atoi] on a run of digits, possibly after a sign. *)
Lemma Atoi_digits (ds : list ascii) :
  ds <> [] -> forallb is_digit ds = true ->
  let n := digits_value ds in
  Atoi ds = (if (int_min <=? n) && (n <=? int_max) then Some n else None)
  /\ Atoi ("+"%char :: ds) = (if (int_min <=? n) && (n <=? int_max) then Some n else None)
  /\ Atoi ("-"%char :: ds) = (if (int_min <=? - n) && (- n <=? int_max) then Some (- n) else None).
Proof.
  intros Hne Hall. cbv zeta. unfold Atoi.
  destruct ds as [|c r]; [contradiction|].
  pose proof (proj1 (forallb_forall _ _) Hall c (or_introl eq_refl)) as Hc.
  destruct (digit_not_sign c Hc) as [Hm Hp].
  rewrite Hm, Hp. cbn [Ascii.eqb Bool.eqb]. rewrite Hall. repeat split; reflexivity.
Qed.

Lemma digits_value_zeros (k : nat) (ds : list ascii) :
  digits_value (repeat "0"%char k ++ ds) = digits_value ds.
Proof.
  rewrite digits_value_app.
  assert (H : digits_value (repeat "0"%char k) = 0).
  { unfold digits_value. induction k as [|k IH]; [reflexivity|].
    cbn [repeat fold_left]. change (0 * 10 + digit_value "0"%char) with 0. exact IH. }
  rewrite H. reflexivity.
Qed.

Lemma forallb_zeros (k : nat) : forallb is_digit (repeat "0"%char k) = true.
Proof. induction k; [reflexivity|]. exact IHk. Qed.

Lemma itoa_shape (n : Z) : in_int_range n ->
  exists ds, ds <> [] /\ forallb is_digit ds = true /\ digits_value ds = Z.abs n
    /\ (0 < Z.abs n -> hd "0"%char ds <> "0"%char)
    /\ itoa n = (if n <? 0 then "-"%char :: ds else ds).
Proof.
  unfold in_int_range, int_min, int_max. intros Hn. unfold itoa.
  destruct (Z.ltb_spec n 0).
  - destruct (utoa_int (- n) ltac:(lia)) as (ds & H1 & H2 & H3 & H4 & H5).
    exists ds. rewrite Z.abs_neq, H1 by lia. auto.
  - destruct (utoa_int n ltac:(lia)) as (ds & H1 & H2 & H3 & H4 & H5).
    exists ds. rewrite Z.abs_eq, H1 by lia. auto.
Qed.

Lemma Atoi_itoa_helper (n : Z) : in_int_range n -> Atoi (itoa n) = Some n.
Proof.
  intros Hn. destruct (itoa_shape n Hn) as (ds & Hne & Hall & Hv & _ & ->).
  destruct (Atoi_digits ds Hne Hall) as (H1 & _ & H3). rewrite Hv in H1, H3.
  unfold in_int_range in Hn.
  destruct (Z.ltb_spec n 0).
  - rewrite H3, Z.abs_neq, Z.opp_involutive by lia.
    replace ((int_min <=? n) && (n <=? int_max)) with true
      by (symmetry; apply andb_true_intro; split; apply Z.leb_le; lia).
    reflexivity.
  - rewrite H1, Z.abs_eq by lia.
    replace ((int_min <=? n) && (n <=? int_max)) with true
      by (symmetry; apply andb_true_intro; split; apply Z.leb_le; lia).
    reflexivity.
Qed.

(** ** Store lookups without counter wrap *)

Lemma GetByID_window_helper (ops : list op) (id : Z) :
  Z.of_nat (count_adds ops) < int_max ->
  snd (GetByID (fst (run store ops)) id) = true
  <-> nextID (fst (run store ops)) - Z.of_nat (List.length (webhooks (fst (run store ops))))
      <= id < nextID (fst (run store ops)).
Proof.
  intros Hb.
  pose proof (nowrap_run ops Hb) as Hn.
  pose proof (window_run store ops window_store) as Hw.
  set (ws := fst (run store ops)) in *.
  unfold GetByID. rewrite find_by_id_found. split.
  - intros (w & Hin & <-).
    destruct (window_In ws w Hw Hin) as (i & Hi & ->).
    rewrite wrap_id; unfold in_int_range, int_min, int_max in *; lia.
  - intros Hid.
    destruct Hw as (_ & _ & _ & Hids & _).
    assert (Hin : In id (map ID (webhooks ws))).
    { rewrite Hids. unfold window_ids. apply in_map_iff.
      exists (Z.to_nat (id - (nextID ws - Z.of_nat (List.length (webhooks ws))))).
      split.
      - rewrite Z2Nat.id by lia. rewrite wrap_id; unfold in_int_range, int_min, int_max in *; lia.
      - apply in_seq. lia. }
    apply in_map_iff in Hin as (w & Hw & Hin). exists w. auto.
Qed.

(** The new entry is the only one with the ID that Add hands out. *)
Lemma Add_find_new (ws : WebhookStore) (payload : json) (now : Z) :
  reachable ws ->
  GetByID (fst (Add ws payload now)) (nextID ws)
  = ({| ID := nextID ws; Payload := payload; Received := now |}, true).
Proof.
  intros Hr.
  pose proof (reachable_window ws Hr) as Hw.
  destruct Hw as (Hm & HL & Hrange & Hids & He).
  destruct (Add_webhooks ws payload now ltac:(lia)) as (l' & Hl' & Hincl & _).
  unfold GetByID. rewrite Hl'.
  apply (find_by_id_app_last l' {| ID := nextID ws; Payload := payload; Received := now |}).
  intros w' Hin. cbn [ID]. apply Hincl in Hin.
  destruct (window_In ws w' (reachable_window ws Hr) Hin) as (i & Hi & Hid).
  rewrite Hid. rewrite <- (wrap_id (nextID ws) Hrange) at 2.
  apply wrap_neq. lia.
Qed.

Lemma reachable_exec (ws : WebhookStore) (o : op) :
  reachable ws -> reachable (fst (exec ws o)).
Proof.
  intros [ops ->]. exists (ops ++ [o]). rewrite run_snoc. reflexivity.
Qed.

Lemma Atoi_trailing (seg : list ascii) (c : ascii) :
  is_digit c = false -> Atoi (seg ++ [c]) = None.
Proof.
  intros Hc. unfold Atoi.
  assert (Hf : forall x, forallb is_digit (x ++ [c]) = false).
  { intros x. rewrite forallb_app. cbn [forallb]. rewrite Hc. apply andb_false_r. }
  destruct seg as [|c0 r].
  - cbn [app]. destruct (Ascii.eqb c "-"%char); [reflexivity|].
    destruct (Ascii.eqb c "+"%char); [reflexivity|].
    cbn [forallb]. rewrite Hc. reflexivity.
  - cbn [app]. destruct (Ascii.eqb c0 "-"%char); [|destruct (Ascii.eqb c0 "+"%char)].
    + destruct (r ++ [c]) eqn:E; [destruct r; discriminate|].
      rewrite <- E, Hf. reflexivity.
    + destruct (r ++ [c]) eqn:E; [destruct r; discriminate|].
      rewrite <- E, Hf. reflexivity.
    + rewrite app_comm_cons, Hf. reflexivity.
Qed.

(** ** Nested arrays and the depth limit *)

Lemma repeat_S_app (c : ascii) (n : nat) (r : list ascii) :
  repeat c (S n) ++ r = repeat c n ++ c :: r.
Proof. induction n as [|n IH]; [reflexivity|]. cbn [repeat app] in *. rewrite IH. reflexivity. Qed.

Lemma scan_nested (k f : nat) (d : Z) (r : list ascii) :
  (3 * S k <= f)%nat ->
  scan_value f d (repeat "["%char (S k) ++ repeat "]"%char (S k) ++ r)
  = if d + Z.of_nat (S k) <=? maxNestingDepth then Some (nest k, r) else None.
Proof.
  revert f d r. induction k as [|k IH]; intros f d r Hf.
  - destruct f as [|[|[|f]]]; try lia. cbn. unfold maxNestingDepth.
    destruct (Z.ltb_spec 10000 (d + 1)); destruct (Z.leb_spec (d + 1) 10000); try lia; reflexivity.
  - destruct f as [|[|[|f]]]; try lia.
    rewrite (repeat_S_app "]"%char (S k) r).
    change (repeat "["%char (S (S k)) ++ repeat "]"%char (S k) ++ "]"%char :: r)
      with ("["%char :: ("["%char :: repeat "["%char k ++ repeat "]"%char (S k) ++ "]"%char :: r)).
    cbn [scan_value skip_ws is_space Ascii.eqb Bool.eqb orb andb].
    unfold maxNestingDepth.
    destruct (Z.ltb_spec 10000 (d + 1)) as [Hd|Hd].
    + replace (d + Z.of_nat (S (S k)) <=? 10000) with false by (symmetry; apply Z.leb_gt; lia).
      reflexivity.
    + cbn [scan_array skip_ws is_space Ascii.eqb Bool.eqb orb andb].
      rewrite scan_elems_S.
      change ("["%char :: repeat "["%char k ++ repeat "]"%char (S k) ++ "]"%char :: r)
        with (repeat "["%char (S k) ++ repeat "]"%char (S k) ++ "]"%char :: r).
      rewrite IH by lia. unfold maxNestingDepth.
      replace (d + 1 + Z.of_nat (S k) <=? 10000) with (d + Z.of_nat (S (S k)) <=? 10000)
        by (f_equal; lia).
      destruct (d + Z.of_nat (S (S k)) <=? 10000); reflexivity.
Qed.

Lemma has_overflow_nest (k : nat) : has_overflow (nest k) = false.
Proof. induction k as [|k IH]; [reflexivity|]. cbn. rewrite IH. reflexivity. Qed.

Lemma decode_nested_helper (n : nat) :
  decode (nested_arrays n)
  = if (0 <? n)%nat && (Z.of_nat n <=? maxNestingDepth) then Some (nest (pred n)) else None.
Proof.
  destruct n as [|k]; [reflexivity|].
  unfold decode, nested_arrays.
  rewrite <- (app_nil_r (repeat "]"%char (S k))).
  rewrite scan_nested.
  2:{ rewrite !length_app, !repeat_length. cbn [List.length]. lia. }
  cbn [Nat.ltb Nat.leb andb pred]. rewrite Z.add_0_l.
  destruct (Z.of_nat (S k) <=? maxNestingDepth); [|reflexivity].
  rewrite has_overflow_nest. reflexivity.
Qed.

(** ** The encoded reply of [webhookHandler] decodes to its fields *)

Lemma span_digits_run (ds : list ascii) (c : ascii) (r : list ascii) :
  forallb is_digit ds = true -> is_digit c = false ->
  span_digits (ds ++ c :: r) = (ds, c :: r).
Proof.
  intros Hall Hc. induction ds as [|d ds IH].
  - cbn. rewrite Hc. reflexivity.
  - cbn [forallb] in Hall. apply andb_prop in Hall as [Hd Hall].
    cbn [app span_digits]. rewrite Hd, (IH Hall). reflexivity.
Qed.

Lemma scan_number_digits (neg : bool) (d : ascii) (ds r : list ascii) :
  is_digit d = true -> forallb is_digit ds = true -> d <> "0"%char ->
  scan_number ((if neg then ["-"%char] else []) ++ d :: ds ++ ","%char :: r)
  = Some ((if neg then - digits_value (d :: ds) else digits_value (d :: ds)), 0, ","%char :: r).
Proof.
  intros Hd Hall H0. destruct (digit_not_sign d Hd) as [Hm _].
  assert (E0 : Ascii.eqb d "0"%char = false) by (apply Ascii.eqb_neq; exact H0).
  assert (Hs : span_digits (d :: ds ++ ","%char :: r) = (d :: ds, ","%char :: r))
    by (apply (span_digits_run (d :: ds)); [cbn [forallb]; rewrite Hd, Hall; reflexivity | reflexivity]).
  unfold scan_number. destruct neg; cbn [app].
  - change (Ascii.eqb "-"%char "-"%char) with true. cbv iota beta.
    rewrite E0, Hd, Hs. cbn. rewrite app_nil_r. reflexivity.
  - rewrite Hm. cbv iota beta. rewrite E0, Hd, Hs. cbn. rewrite app_nil_r. reflexivity.
Qed.

Lemma scan_number_itoa (n : Z) (r : list ascii) : in_int_range n ->
  scan_number (itoa n ++ ","%char :: r) = Some (n, 0, ","%char :: r).
Proof.
  intros Hn.
  destruct (Z.eq_dec n 0) as [->|Hn0]; [reflexivity|].
  destruct (itoa_shape n Hn) as (ds & Hne & Hall & Hv & Hhd & ->).
  destruct ds as [|d ds']; [contradiction|].
  specialize (Hhd ltac:(lia)). cbn [hd] in Hhd.
  cbn [forallb] in Hall. apply andb_prop in Hall as [Hd Hall].
  pose proof (scan_number_digits (n <? 0) d ds' r Hd Hall Hhd) as H.
  rewrite Hv in H.
  destruct (Z.ltb_spec n 0).
  - rewrite Z.abs_neq, Z.opp_involutive in H by lia. exact H.
  - rewrite Z.abs_eq in H by lia. exact H.
Qed.

Lemma itoa_head (n : Z) (r : list ascii) : in_int_range n ->
  exists c s, itoa n ++ r = c :: s /\ (Ascii.eqb c "-"%char || is_digit c) = true.
Proof.
  intros Hn. destruct (itoa_shape n Hn) as (ds & Hne & Hall & _ & _ & ->).
  destruct (n <? 0).
  - exists "-"%char, (ds ++ r). split; reflexivity.
  - destruct ds as [|d ds]; [contradiction|].
    exists d, (ds ++ r). split; [reflexivity|].
    cbn [forallb] in Hall. apply andb_prop in Hall as [Hd _]. rewrite Hd. apply orb_true_r.
Qed.

Lemma number_start (c : ascii) : (Ascii.eqb c "-"%char || is_digit c) = true ->
  is_space c = false /\ Ascii.eqb c "{"%char = false /\ Ascii.eqb c "["%char = false
  /\ Ascii.eqb c quote = false /\ Ascii.eqb c "t"%char = false
  /\ Ascii.eqb c "f"%char = false /\ Ascii.eqb c "n"%char = false.
Proof.
  intros H.
  destruct (Ascii.eqb_spec c "-"%char) as [Em|Hm]; [rewrite Em; repeat split; reflexivity|].
  cbn [orb] in H.
  unfold is_space.
  repeat match goal with
  | |- context [Ascii.eqb c ?x] =>
      let E := fresh in
      destruct (Ascii.eqb_spec c x) as [E|E]; [subst c; discriminate H|]
  end.
  repeat split.
Qed.

Lemma scan_value_itoa (f : nat) (d : Z) (n : Z) (r : list ascii) : in_int_range n ->
  scan_value (S f) d (itoa n ++ ","%char :: r) = Some (JNumber n 0, ","%char :: r).
Proof.
  intros Hn. destruct (itoa_head n (","%char :: r) Hn) as (c & s & E & Hc).
  destruct (number_start c Hc) as (H1 & H2 & H3 & H4 & H5 & H6 & H7).
  cbn [scan_value]. rewrite E. cbn [skip_ws]. rewrite H1, H2, H3, H4, H5, H6, H7, Hc.
  rewrite <- E, scan_number_itoa by exact Hn. reflexivity.
Qed.

Lemma decode_encodeReceived_helper (n : Z) : in_int_range n ->
  decode (encodeReceived n)
  = Some (JObject [(list_ascii_of_string "id", JNumber n 0);
                   (list_ascii_of_string "message",
                    JString (list_ascii_of_string "Webhook received and stored successfully"))]).
Proof.
  intros Hn. unfold decode.
  remember (3 * List.length (encodeReceived n) + 3)%nat as fuel eqn:Hf.
  assert (Hge : (10 <= fuel)%nat)
    by (subst fuel; unfold encodeReceived; rewrite !length_app; cbn [List.length]; lia).
  clear Hf.
  destruct fuel as [|[|[|g]]]; try lia.
  unfold encodeReceived.
  remember (itoa n) as s eqn:Es.
  simpl.
  destruct g as [|g]; [lia|].
  subst s. rewrite scan_value_itoa by exact Hn.
  destruct g as [|g]; [lia|].
  simpl.
  rewrite orb_false_r.
  replace (float64_overflows n 0) with false; [reflexivity|].
  unfold float64_overflows, in_int_range, int_min, int_max in *.
  symmetry. apply Z.leb_gt. rewrite Z.pow_0_r, Z.mul_1_r. lia.
Qed.

(** ** [getStringFromPayload] and [getInt64FromPayload] *)

Lemma bytes_eqb_spec (a b : list ascii) : bytes_eqb a b = true <-> a = b.
Proof.
  revert b. induction a as [|c a IH]; intros [|d b]; cbn [bytes_eqb];
    try (split; [discriminate|congruence]); [split; reflexivity|].
  rewrite andb_true_iff, IH. split.
  - intros [E ->]. apply Ascii.eqb_eq in E. subst. reflexivity.
  - intros E. injection E as -> ->. split; [apply Ascii.eqb_refl | reflexivity].
Qed.

Lemma map_lookup_store (k k' : list ascii) (v : GoValue) (m : list (list ascii * GoValue)) :
  map_lookup k (map_store k' v m) = if bytes_eqb k k' then Some v else map_lookup k m.
Proof.
  unfold map_store. cbn [map_lookup].
  destruct (bytes_eqb k k') eqn:E; [reflexivity|].
  induction m as [|[k0 v0] m IH]; [reflexivity|].
  cbn [filter fst]. destruct (bytes_eqb k' k0) eqn:E'; cbn [negb map_lookup].
  - apply bytes_eqb_spec in E'. subst k0. rewrite E. exact IH.
  - destruct (bytes_eqb k k0); [reflexivity|exact IH].
Qed.

Lemma find_app_l {A : Type} (p : A -> bool) (l1 l2 : list A) :
  find p (l1 ++ l2) = match find p l1 with Some x => Some x | None => find p l2 end.
Proof.
  induction l1 as [|x l1 IH]; [reflexivity|]. cbn [app find].
  destruct (p x); [reflexivity | exact IH].
Qed.

(** The map [objectInterface] builds holds, for each key, the value of the
    last member with that name. *)
Lemma lookup_object (key : list ascii) (kvs : list (list ascii * json))
  (m : list (list ascii * GoValue)) :
  map_lookup key
    (fold_left (fun m kv => map_store (unquote_text (fst kv)) (to_interface (snd kv)) m) kvs m)
  = match find (fun kv => bytes_eqb key (unquote_text (fst kv))) (rev kvs) with
    | Some kv => Some (to_interface (snd kv))
    | None => map_lookup key m
    end.
Proof.
  revert m. induction kvs as [|kv kvs IH]; intros m; [reflexivity|].
  cbn [fold_left rev]. rewrite IH, find_app_l. cbn [find].
  destruct (find _ (rev kvs)); [reflexivity|].
  rewrite map_lookup_store. destruct (bytes_eqb key (unquote_text (fst kv))); reflexivity.
Qed.

Lemma lookup_to_interface (key : list ascii) (kvs : list (list ascii * json)) :
  (match to_interface (JObject kvs) with GMap m => map_lookup key m | _ => None end)
  = option_map to_interface (last_member key kvs).
Proof.
  cbn [to_interface]. rewrite lookup_object. unfold last_member.
  destruct (find _ (rev kvs)); reflexivity.
Qed.

(** ** Unquoting plain text *)

Lemma unquote_scan_plain (t : list ascii) (f : nat) :
  forallb plain_char t = true -> (List.length t <= f)%nat -> unquote_scan f t = List.length t.
Proof.
  revert f. induction t as [|c t IH]; intros f Hp Hf; [destruct f; reflexivity|].
  destruct f as [|f]; [cbn in Hf; lia|].
  cbn [forallb] in Hp. apply andb_true_iff in Hp as [Hc Ht].
  unfold plain_char in Hc.
  apply andb_true_iff in Hc as [Hc Hb]. apply andb_true_iff in Hc as [Hc Hq].
  apply andb_true_iff in Hc as [H32 H128].
  apply negb_true_iff in Hb, Hq.
  cbn [unquote_scan]. rewrite Hb, Hq.
  replace (byte_val c <? 32) with false by (symmetry; apply Z.ltb_ge; apply Z.leb_le in H32; lia).
  rewrite H128.
  cbn [orb]. rewrite IH by (auto; cbn in Hf; lia). reflexivity.
Qed.

Lemma unquote_plain_helper (t : list ascii) :
  forallb plain_char t = true -> unquote t = Some t.
Proof.
  intros Hp. unfold unquote. rewrite unquote_scan_plain by (auto; lia).
  rewrite Nat.eqb_refl. reflexivity.
Qed.

(** ** [float64] of integers *)

Lemma round_half_even_exact (q den : Z) : 0 < den -> round_half_even (q * den) den = q.
Proof.
  intros Hd. unfold round_half_even.
  rewrite Z.div_mul, Z.mod_mul by lia. cbn [Z.mul].
  replace (den <? 0) with false by (symmetry; apply Z.ltb_ge; lia).
  replace (0 <? den) with true by (symmetry; apply Z.ltb_lt; lia).
  reflexivity.
Qed.

(** The binary exponent [float64_of_decimal] computes is [floor (log2 (a / b))]
    when [a >= b]. *)
Lemma floor_log2_ratio (a b : Z) : 0 < b <= a ->
  let t := Z.log2 a - Z.log2 b in
  let l := if (if 0 <=? t then b * 2 ^ t <=? a else b <=? a * 2 ^ (- t)) then t else t - 1 in
  0 <= l /\ b * 2 ^ l <= a < b * 2 ^ (l + 1).
Proof.
  intros Hab t l.
  destruct (Z.log2_spec a ltac:(lia)) as [Ha1 Ha2].
  destruct (Z.log2_spec b ltac:(lia)) as [Hb1 Hb2].
  assert (Ht : 0 <= t) by (unfold t; pose proof (Z.log2_le_mono b a); lia).
  assert (Ela : Z.log2 a = Z.log2 b + t) by (unfold t; lia).
  rewrite Ela in Ha1, Ha2.
  rewrite Z.pow_add_r in Ha1 by (pose proof (Z.log2_nonneg b); lia).
  rewrite Z.pow_succ_r, Z.pow_add_r in Ha2 by (pose proof (Z.log2_nonneg b); lia).
  rewrite Z.pow_succ_r in Hb2 by (apply Z.log2_nonneg).
  set (pb := 2 ^ Z.log2 b) in *. set (pt := 2 ^ t) in *.
  unfold l. rewrite (proj2 (Z.leb_le 0 t) Ht).
  destruct (Z.leb_spec (b * pt) a) as [H|H].
  - split; [exact Ht|]. split; [exact H|].
    rewrite Z.pow_add_r by lia. fold pt. nia.
  - assert (Ht1 : 1 <= t).
    { destruct (Z.eq_dec t 0) as [E|]; [|lia]. unfold pt in H. rewrite E in H. lia. }
    assert (Hpt : pt = 2 * 2 ^ (t - 1))
      by (unfold pt; rewrite <- Z.pow_succ_r by lia; f_equal; lia).
    split; [lia|]. replace (t - 1 + 1) with t by lia. fold pt.
    split; [|lia].
    rewrite Hpt in Ha1. nia.
Qed.

(** A literal whose value is an integer [v] with [|v| <= 2^53] is parsed
    exactly, and [int64] gives [v] back. *)
Lemma float64_int_exact (m e v : Z) :
  ((0 <= e /\ v = m * 10 ^ e) \/ (e < 0 /\ m = v * 10 ^ (- e))) ->
  Z.abs v <= 2 ^ 53 ->
  float64_to_int64 (float64_of_decimal m e) = v.
Proof.
  intros He Hv.
  set (b := 10 ^ Z.max (- e) 0).
  assert (Hb : 0 < b) by (apply Z.pow_pos_nonneg; lia).
  assert (Ha : Z.abs m * 10 ^ Z.max e 0 = Z.abs v * b).
  { unfold b. destruct He as [[He ->]|[He ->]].
    - rewrite (Z.max_l e 0), (Z.max_r (- e) 0) by lia.
      rewrite Z.pow_0_r, Z.abs_mul, (Z.abs_eq (10 ^ e)) by (apply Z.pow_nonneg; lia). ring.
    - rewrite (Z.max_r e 0), (Z.max_l (- e) 0) by lia.
      rewrite Z.pow_0_r, Z.abs_mul, (Z.abs_eq (10 ^ (- e))) by (apply Z.pow_nonneg; lia). ring. }
  assert (Hsign : (m <? 0) = (v <? 0)).
  { destruct He as [[He ->]|[He ->]].
    - assert (0 < 10 ^ e) by (apply Z.pow_pos_nonneg; lia).
      destruct (Z.ltb_spec (m * 10 ^ e) 0), (Z.ltb_spec m 0); try reflexivity; nia.
    - assert (0 < 10 ^ (- e)) by (apply Z.pow_pos_nonneg; lia).
      destruct (Z.ltb_spec (v * 10 ^ (- e)) 0), (Z.ltb_spec v 0); try reflexivity; nia. }
  unfold float64_of_decimal. fold b. rewrite Ha, Hsign.
  destruct (Z.eqb_spec (Z.abs v * b) 0) as [H0|H0].
  { assert (v = 0) by nia. subst v. reflexivity. }
  assert (Hpv : 0 < Z.abs v).
  { destruct (Z.eq_dec (Z.abs v) 0) as [E|E]; [rewrite E in H0; lia | lia]. }
  set (a := Z.abs v * b) in *.
  assert (Hba : 0 < b <= a) by (unfold a; nia).
  pose proof (floor_log2_ratio a b Hba) as HL. cbv zeta in HL |- *.
  revert HL. match goal with |- 0 <= ?L /\ _ -> _ => generalize L end.
  intros l HL. destruct HL as (Hl0 & Hl1 & Hl2).
  assert (Hvl : 2 ^ l <= Z.abs v < 2 ^ (l + 1)) by (unfold a in *; nia).
  assert (Hl53 : l <= 53).
  { destruct (Z.le_gt_cases l 53) as [|Hgt]; [assumption|].
    assert (2 ^ 54 <= 2 ^ l) by (apply Z.pow_le_mono_r; lia). lia. }
  rewrite Z.max_l by lia.
  unfold float64_to_int64. cbn [fexp fmant fneg].
  destruct (Z.leb_spec 0 (l - 52)) as [Hk|Hk].
  - (* l is 52 or 53: the value is a multiple of [2^(l-52)] *)
    assert (Hdiv : Z.abs v = (Z.abs v / 2 ^ (l - 52)) * 2 ^ (l - 52)).
    { destruct (Z.eq_dec l 52) as [->|Hl].
      - cbn. rewrite Z.div_1_r. lia.
      - assert (l = 53) by lia. subst l.
        assert (Z.abs v = 2 ^ 53) by (replace (2 ^ (53 + 1)) with (2 * 2 ^ 53) in Hvl by reflexivity; lia).
        rewrite H. reflexivity. }
    assert (R : round_half_even (Z.abs v * b) (b * 2 ^ (l - 52)) * 2 ^ (l - 52) = Z.abs v).
    { rewrite Hdiv at 1.
      replace (Z.abs v / 2 ^ (l - 52) * 2 ^ (l - 52) * b)
        with (Z.abs v / 2 ^ (l - 52) * (b * 2 ^ (l - 52))) by ring.
      rewrite round_half_even_exact
        by (apply Z.mul_pos_pos; [lia | apply Z.pow_pos_nonneg; lia]).
      symmetry; exact Hdiv. }
    unfold a. rewrite R.
    destruct (Z.ltb_spec v 0);
      [rewrite Z.abs_neq by lia | rewrite Z.abs_eq by lia];
      (replace ((int_min <=? _) && (_ <=? int_max)) with true
        by (symmetry; apply andb_true_intro; unfold int_min, int_max;
            split; apply Z.leb_le; lia)); lia.
  - assert (R : round_half_even (Z.abs v * b * 2 ^ (- (l - 52))) b / 2 ^ (- (l - 52)) = Z.abs v).
    { replace (Z.abs v * b * 2 ^ (- (l - 52))) with ((Z.abs v * 2 ^ (- (l - 52))) * b) by ring.
      rewrite round_half_even_exact by exact Hb.
      apply Z.div_mul, Z.pow_nonzero; lia. }
    unfold a. rewrite R.
    destruct (Z.ltb_spec v 0);
      [rewrite Z.abs_neq by lia | rewrite Z.abs_eq by lia];
      (replace ((int_min <=? _) && (_ <=? int_max)) with true
        by (symmetry; apply andb_true_intro; unfold int_min, int_max;
            split; apply Z.leb_le; lia)); lia.
Qed.

(** ** Helpers for the handlers *)

Lemma find_by_id_NoDup (l : list StoredWebhook) (w : StoredWebhook) :
  NoDup (map ID l) -> In w l -> find_by_id l (ID w) = (w, true).
Proof.
  induction l as [|w0 l IH]; intros Hnd Hin; [destruct Hin|].
  cbn [find_by_id]. inversion Hnd as [|? ? Hn Hnd']; subst.
  destruct Hin as [<-|Hin].
  - rewrite Z.eqb_refl. reflexivity.
  - destruct (Z.eqb_spec (ID w0) (ID w)) as [E|E].
    + exfalso. apply Hn. rewrite E. apply in_map. exact Hin.
    + apply IH; assumption.
Qed.

Lemma window_ID_range (ws : WebhookStore) (w : StoredWebhook) :
  window ws -> In w (webhooks ws) -> in_int_range (ID w).
Proof.
  intros Hw Hin. destruct (window_In ws w Hw Hin) as (i & _ & ->). apply wrap_range.
Qed.

Lemma getWebhookByID_itoa (ws : WebhookStore) (n : Z) :
  in_int_range n ->
  getWebhookByIDHandler ws "GET" (webhooks_prefix ++ itoa n)
  = if snd (GetByID ws n)
    then mkResponse StatusOK (BodyWebhook (fst (GetByID ws n)))
    else mkResponse StatusNotFound (BodyError "Webhook not found").
Proof.
  intros Hn. rewrite getWebhookByIDHandler_GET, Atoi_itoa_helper by exact Hn.
  destruct (snd (GetByID ws n)); reflexivity.
Qed.

Lemma Atoi_zeros (k : nat) (plus : bool) (n : Z) :
  0 <= n <= int_max ->
  Atoi ((if plus then ["+"%char] else []) ++ repeat "0"%char k ++ itoa n) = Some n.
Proof.
  intros Hn.
  destruct (itoa_shape n) as (ds & Hne & Hall & Hv & _ & Hi).
  { unfold in_int_range, int_min in *. lia. }
  rewrite Hi. replace (n <? 0) with false by (symmetry; apply Z.ltb_ge; lia).
  assert (Hne' : repeat "0"%char k ++ ds <> []).
  { destruct ds; [contradiction|]. destruct k; discriminate. }
  assert (Hall' : forallb is_digit (repeat "0"%char k ++ ds) = true).
  { rewrite forallb_app, forallb_zeros, Hall. reflexivity. }
  destruct (Atoi_digits _ Hne' Hall') as (H1 & H2 & _).
  cbv zeta in H1, H2. rewrite digits_value_zeros, Hv, Z.abs_eq in H1, H2 by lia.
  replace ((int_min <=? n) && (n <=? int_max)) with true in H1, H2
    by (symmetry; apply andb_true_intro; unfold int_min, int_max in *;
        split; apply Z.leb_le; lia).
  destruct plus; cbn [app]; assumption.
Qed.

(** ** The listing and clearing endpoints *)

(** [getWebhooksHandler]: with GET the answer is 200 with the stored entries
    newest first and a count equal to their number; on a store the program
    can reach that count is at most [maxSize] and no two listed entries
    share an ID. Any other method gets 405. *)
Theorem getWebhooks_list (ws : WebhookStore) (method : string) :
  reachable ws ->
  getWebhooksHandler ws method =
    (if String.eqb method "GET"
     then mkHandlerResponse StatusOK
            (HList (Z.of_nat (List.length (webhooks ws))) (rev (webhooks ws)))
     else mkHandlerResponse StatusMethodNotAllowed (HError "Method not allowed"))
  /\ Z.of_nat (List.length (webhooks ws)) <= maxSize ws
  /\ NoDup (map ID (rev (webhooks ws))).
Proof.
  intros Hr. pose proof (reachable_window ws Hr) as Hw.
  split; [|split].
  - unfold getWebhooksHandler. rewrite GetAll_rev, length_rev.
    destruct (String.eqb method "GET"); reflexivity.
  - destruct Hw as (Hm & HL & _). lia.
  - rewrite map_rev. apply NoDup_rev, window_NoDup, Hw.
Qed.

Lemma getWebhooks_list_witness :
  let ws := fst (run store [OpAdd JNull 1; OpAdd (JBool true) 2]) in
  reachable ws
  /\ (getWebhooksHandler ws "GET" =
        (if String.eqb "GET" "GET"
         then mkHandlerResponse StatusOK
                (HList (Z.of_nat (List.length (webhooks ws))) (rev (webhooks ws)))
         else mkHandlerResponse StatusMethodNotAllowed (HError "Method not allowed"))
      /\ Z.of_nat (List.length (webhooks ws)) <= maxSize ws
      /\ NoDup (map ID (rev (webhooks ws)))).
Proof.
  intros ws.
  assert (Hr : reachable ws) by (exists [OpAdd JNull 1; OpAdd (JBool true) 2]; reflexivity).
  split; [exact Hr | apply (getWebhooks_list ws "GET" Hr)].
Defined.

(** [clearWebhooksHandler], whatever the method: 200 with the number of
    entries held before; afterwards GET /webhooks lists nothing, GET
    /webhooks/{id} never finds an entry (404 for any ID [strconv.Atoi]
    accepts, 400 otherwise), and the next accepted POST is assigned ID 1. *)
Theorem clear_then_requests (ws : WebhookStore) (method : string)
  (seg body : list ascii) (now : Z) :
  let '(r, ws') := clearWebhooksHandler ws method in
  r = mkHandlerResponse StatusOK
        (HCleared "All webhooks cleared successfully" (Z.of_nat (List.length (webhooks ws))))
  /\ getWebhooksHandler ws' "GET" = mkHandlerResponse StatusOK (HList 0 [])
  /\ getWebhookByIDHandler ws' "GET" (webhooks_prefix ++ seg)
     = match Atoi seg with
       | Some _ => mkResponse StatusNotFound (BodyError "Webhook not found")
       | None => mkResponse StatusBadRequest (BodyError "Invalid webhook ID")
       end
  /\ fst (webhookHandler ws' "POST" body now)
     = match decode body with
       | Some _ => mkResponse StatusOK (BodyReceived "Webhook received and stored successfully" 1)
       | None => mkResponse StatusBadRequest (BodyError "Bad request")
       end.
Proof.
  unfold clearWebhooksHandler, Clear. cbv beta iota zeta.
  split; [reflexivity|]. split; [reflexivity|]. split.
  - rewrite getWebhookByIDHandler_GET. destruct (Atoi seg); reflexivity.
  - unfold webhookHandler. cbn [String.eqb Ascii.eqb Bool.eqb negb].
    destruct (decode body); reflexivity.
Qed.

(** ** The by-ID endpoint *)

(** The decimal text of any [int] (what [encoding/json] writes for an ID)
    is an ID segment [strconv.Atoi] accepts: GET /webhooks/{n} never gets
    400, only 200 with the entry [GetByID] finds, or 404. *)
Theorem getWebhookByID_decimal (ws : WebhookStore) (n : Z) :
  in_int_range n ->
  getWebhookByIDHandler ws "GET" (webhooks_prefix ++ itoa n)
  = if snd (GetByID ws n)
    then mkResponse StatusOK (BodyWebhook (fst (GetByID ws n)))
    else mkResponse StatusNotFound (BodyError "Webhook not found").
Proof. apply getWebhookByID_itoa. Qed.

Lemma getWebhookByID_decimal_witness :
  in_int_range (-3)
  /\ getWebhookByIDHandler store "GET" (webhooks_prefix ++ itoa (-3))
     = if snd (GetByID store (-3))
       then mkResponse StatusOK (BodyWebhook (fst (GetByID store (-3))))
       else mkResponse StatusNotFound (BodyError "Webhook not found").
Proof.
  assert (H : in_int_range (-3)) by (unfold in_int_range, int_min, int_max; lia).
  split; [exact H | apply (getWebhookByID_decimal store (-3) H)].
Defined.

(** An ID segment with a leading [+] or leading zeros designates the same
    ID: for [0 <= n], GET /webhooks/+007 answers as GET /webhooks/7. *)
Theorem getWebhookByID_zeros (ws : WebhookStore) (k : nat) (plus : bool) (n : Z) :
  0 <= n <= int_max ->
  getWebhookByIDHandler ws "GET"
    (webhooks_prefix ++ (if plus then ["+"%char] else []) ++ repeat "0"%char k ++ itoa n)
  = getWebhookByIDHandler ws "GET" (webhooks_prefix ++ itoa n).
Proof.
  intros Hn. rewrite !getWebhookByIDHandler_GET, Atoi_zeros by exact Hn.
  rewrite Atoi_itoa_helper by (unfold in_int_range, int_min in *; lia).
  reflexivity.
Qed.

Lemma getWebhookByID_zeros_witness :
  0 <= 7 <= int_max
  /\ getWebhookByIDHandler store "GET"
       (webhooks_prefix ++ (if true then ["+"%char] else []) ++ repeat "0"%char 2 ++ itoa 7)
     = getWebhookByIDHandler store "GET" (webhooks_prefix ++ itoa 7).
Proof.
  assert (H : 0 <= 7 <= int_max) by (unfold int_max; lia).
  split; [exact H | apply (getWebhookByID_zeros store 2 true 7 H)].
Defined.

(** An ID segment that ends in a byte other than a decimal digit (a
    trailing slash, a space, a letter) gets 400, whatever comes before. *)
Theorem getWebhookByID_trailing (ws : WebhookStore) (seg : list ascii) (c : ascii) :
  is_digit c = false ->
  getWebhookByIDHandler ws "GET" (webhooks_prefix ++ seg ++ [c])
  = mkResponse StatusBadRequest (BodyError "Invalid webhook ID").
Proof.
  intros Hc. rewrite getWebhookByIDHandler_GET, Atoi_trailing by exact Hc. reflexivity.
Qed.

Lemma getWebhookByID_trailing_witness :
  is_digit "/"%char = false
  /\ getWebhookByIDHandler store "GET" (webhooks_prefix ++ itoa 1 ++ ["/"%char])
     = mkResponse StatusBadRequest (BodyError "Invalid webhook ID").
Proof.
  assert (H : is_digit "/"%char = false) by reflexivity.
  split; [exact H | apply (getWebhookByID_trailing store (itoa 1) "/"%char H)].
Defined.

(** While the counter has not wrapped, the IDs GET /webhooks/{id} finds are
    exactly the last [len] ones handed out: 200 when
    [nextID - len <= id < nextID], 404 for every other [int]. *)
Theorem getWebhookByID_window (ops : list op) (id : Z) :
  Z.of_nat (count_adds ops) < int_max -> in_int_range id ->
  let ws := fst (run store ops) in
  status (getWebhookByIDHandler ws "GET" (webhooks_prefix ++ itoa id))
  = if (nextID ws - Z.of_nat (List.length (webhooks ws)) <=? id) && (id <? nextID ws)
    then StatusOK else StatusNotFound.
Proof.
  intros Hb Hid ws. rewrite getWebhookByID_itoa by exact Hid.
  pose proof (GetByID_window_helper ops id Hb) as Hiff. fold ws in Hiff.
  destruct ((_ <=? id) && (id <? _)) eqn:C.
  - apply andb_true_iff in C as [C1 C2]. apply Z.leb_le in C1. apply Z.ltb_lt in C2.
    rewrite (proj2 Hiff (conj C1 C2)). reflexivity.
  - assert (E : snd (GetByID ws id) = false).
    { apply not_true_is_false. intros E.
      destruct (proj1 Hiff E) as [E1 E2].
      apply Z.leb_le in E1. apply Z.ltb_lt in E2. rewrite E1, E2 in C. discriminate. }
    rewrite E. reflexivity.
Qed.

Lemma getWebhookByID_window_witness :
  let ops := [OpAdd JNull 1; OpAdd JNull 2; OpGetAll; OpAdd JNull 3] in
  Z.of_nat (count_adds ops) < int_max /\ in_int_range 2
  /\ (let ws := fst (run store ops) in
      status (getWebhookByIDHandler ws "GET" (webhooks_prefix ++ itoa 2))
      = if (nextID ws - Z.of_nat (List.length (webhooks ws)) <=? 2) && (2 <? nextID ws)
        then StatusOK else StatusNotFound).
Proof.
  intros ops.
  assert (H1 : Z.of_nat (count_adds ops) < int_max) by (unfold int_max; cbn; lia).
  assert (H2 : in_int_range 2) by (unfold in_int_range, int_min, int_max; lia).
  split; [exact H1 | split; [exact H2 | apply (getWebhookByID_window ops 2 H1 H2)]].
Defined.

(** Every entry GET /webhooks lists can be fetched by GET /webhooks/{id}
    with the decimal text of its ID, and the answer is that very entry. *)
Theorem listed_entries_fetchable (ws : WebhookStore) (count : Z)
  (hooks : list StoredWebhook) (w : StoredWebhook) :
  reachable ws ->
  getWebhooksHandler ws "GET" = mkHandlerResponse StatusOK (HList count hooks) ->
  In w hooks ->
  getWebhookByIDHandler ws "GET" (webhooks_prefix ++ itoa (ID w))
  = mkResponse StatusOK (BodyWebhook w).
Proof.
  intros Hr Hl Hin. pose proof (reachable_window ws Hr) as Hw.
  unfold getWebhooksHandler in Hl. cbn [String.eqb Ascii.eqb Bool.eqb negb] in Hl.
  injection Hl as _ <-. rewrite GetAll_rev, <- in_rev in Hin.
  rewrite getWebhookByID_itoa by exact (window_ID_range ws w Hw Hin).
  unfold GetByID. rewrite (find_by_id_NoDup _ w (window_NoDup ws Hw) Hin). reflexivity.
Qed.

Lemma listed_entries_fetchable_witness :
  let ws := fst (run store [OpAdd JNull 1; OpAdd (JBool false) 2]) in
  let w := {| ID := 1; Payload := JNull; Received := 1 |} in
  reachable ws
  /\ getWebhooksHandler ws "GET" = mkHandlerResponse StatusOK (HList 2 (GetAll ws))
  /\ In w (GetAll ws)
  /\ getWebhookByIDHandler ws "GET" (webhooks_prefix ++ itoa (ID w))
     = mkResponse StatusOK (BodyWebhook w).
Proof.
  intros ws w.
  assert (Hr : reachable ws) by (exists [OpAdd JNull 1; OpAdd (JBool false) 2]; reflexivity).
  assert (Hl : getWebhooksHandler ws "GET" = mkHandlerResponse StatusOK (HList 2 (GetAll ws)))
    by reflexivity.
  assert (Hin : In w (GetAll ws)) by (cbn; right; left; reflexivity).
  split; [exact Hr | split; [exact Hl | split; [exact Hin |]]].
  apply (listed_entries_fetchable ws 2 (GetAll ws) w Hr Hl Hin).
Defined.

(** ** The POST endpoint *)

(** A POST whose body decodes is answered with the ID [Add] hands out, and
    on the resulting store GET /webhooks/{that ID} returns 200 with the
    decoded payload and the time of receipt. *)
Theorem post_then_get (ws : WebhookStore) (body : list ascii) (payload : json) (now : Z) :
  reachable ws -> decode body = Some payload ->
  let '(r, ws') := webhookHandler ws "POST" body now in
  r = mkResponse StatusOK (BodyReceived "Webhook received and stored successfully" (nextID ws))
  /\ getWebhookByIDHandler ws' "GET" (webhooks_prefix ++ itoa (nextID ws))
     = mkResponse StatusOK
         (BodyWebhook {| ID := nextID ws; Payload := payload; Received := now |}).
Proof.
  intros Hr Hd. pose proof (reachable_window ws Hr) as Hw.
  unfold webhookHandler. cbn [String.eqb Ascii.eqb Bool.eqb negb]. rewrite Hd.
  pose proof (Add_find_new ws payload now Hr) as HF.
  destruct (Add ws payload now) as [ws' id] eqn:EA.
  assert (Eid : id = nextID ws) by (unfold Add in EA; injection EA; auto).
  subst id. split; [reflexivity|].
  destruct Hw as (_ & _ & Hrange & _).
  rewrite getWebhookByID_itoa by exact Hrange. cbn [fst] in HF. rewrite HF. reflexivity.
Qed.

Lemma post_then_get_witness :
  reachable store /\ decode (list_ascii_of_string "{}") = Some (JObject [])
  /\ (let '(r, ws') := webhookHandler store "POST" (list_ascii_of_string "{}") 5 in
      r = mkResponse StatusOK (BodyReceived "Webhook received and stored successfully" (nextID store))
      /\ getWebhookByIDHandler ws' "GET" (webhooks_prefix ++ itoa (nextID store))
         = mkResponse StatusOK
             (BodyWebhook {| ID := nextID store; Payload := JObject []; Received := 5 |})).
Proof.
  assert (Hr : reachable store) by (exists []; reflexivity).
  assert (Hd : decode (list_ascii_of_string "{}") = Some (JObject [])) by (vm_compute; reflexivity).
  split; [exact Hr | split; [exact Hd | apply (post_then_get store _ _ 5 Hr Hd)]].
Defined.

(** The body [webhookHandler] writes on success decodes (with the decoder
    that reads request bodies) to the object with the assigned ID as a
    number and the success message as a string. *)
Theorem decode_reply (n : Z) :
  in_int_range n ->
  decode (encodeReceived n)
  = Some (JObject [(list_ascii_of_string "id", JNumber n 0);
                   (list_ascii_of_string "message",
                    JString (list_ascii_of_string "Webhook received and stored successfully"))]).
Proof. apply decode_encodeReceived_helper. Qed.

Lemma decode_reply_witness :
  in_int_range 42
  /\ decode (encodeReceived 42)
     = Some (JObject [(list_ascii_of_string "id", JNumber 42 0);
                      (list_ascii_of_string "message",
                       JString (list_ascii_of_string "Webhook received and stored successfully"))]).
Proof.
  assert (H : in_int_range 42) by (unfold in_int_range, int_min, int_max; lia).
  split; [exact H | apply (decode_reply 42 H)].
Defined.

(** A POST body of [k] nested arrays is accepted (200) exactly when
    [1 <= k <= 10000]; deeper nesting is refused with 400 by the decoder's
    depth limit. *)
Theorem webhook_nesting_limit (ws : WebhookStore) (k : nat) (now : Z) :
  status (fst (webhookHandler ws "POST" (nested_arrays k) now))
  = if (1 <=? k)%nat && (Z.of_nat k <=? 10000) then StatusOK else StatusBadRequest.
Proof.
  unfold webhookHandler. cbn [String.eqb Ascii.eqb Bool.eqb negb].
  rewrite decode_nested_helper. unfold maxNestingDepth.
  change (0 <? k)%nat with (1 <=? k)%nat.
  destruct ((1 <=? k)%nat && (Z.of_nat k <=? 10000)); [|reflexivity].
  destruct (Add ws (nest (pred k)) now); reflexivity.
Qed.

(** ** Reading fields of a decoded payload *)

(** [getStringFromPayload] on a decoded body: the text of the last member
    named [key] when that member is a JSON string (escapes resolved), and
    the empty string when the body is not an object, has no such member, or
    the member is not a string. *)
Theorem getStringFromPayload_decoded (v : json) (key : list ascii) :
  getStringFromPayload (to_interface v) key
  = match v with
    | JObject kvs =>
        match last_member key kvs with
        | Some (JString t) => unquote_text t
        | _ => []
        end
    | _ => []
    end.
Proof.
  destruct v as [| | | | |kvs]; try reflexivity.
  unfold getStringFromPayload. cbn [to_interface]. rewrite lookup_object.
  unfold last_member. destruct (find _ (rev kvs)) as [[k x]|]; [|reflexivity].
  cbn [snd]. destruct x; reflexivity.
Qed.

(** [getInt64FromPayload] on a decoded body: a JSON number is always a
    [float64] there, so the [int64] and [int] cases of its type switch are
    never taken; the result is [int64] of the [float64] nearest to the last
    member named [key] when that member is a number, and 0 otherwise. *)
Theorem getInt64FromPayload_decoded (v : json) (key : list ascii) :
  getInt64FromPayload (to_interface v) key
  = match v with
    | JObject kvs =>
        match last_member key kvs with
        | Some (JNumber m e) => float64_to_int64 (float64_of_decimal m e)
        | _ => 0
        end
    | _ => 0
    end.
Proof.
  destruct v as [| | | | |kvs]; try reflexivity.
  unfold getInt64FromPayload. cbn [to_interface]. rewrite lookup_object.
  unfold last_member. destruct (find _ (rev kvs)) as [[k x]|]; [|reflexivity].
  cbn [snd]. destruct x; reflexivity.
Qed.

(** An integral number of magnitude at most [2^53] (a Unix timestamp, say)
    is read back exactly by [getInt64FromPayload], whatever its spelling:
    [1700000000], [1.7e9] or [1700000000.0]. *)
Theorem getInt64FromPayload_integral (kvs : list (list ascii * json)) (key : list ascii)
  (m e v : Z) :
  last_member key kvs = Some (JNumber m e) ->
  ((0 <= e /\ v = m * 10 ^ e) \/ (e < 0 /\ m = v * 10 ^ (- e))) ->
  Z.abs v <= 2 ^ 53 ->
  getInt64FromPayload (to_interface (JObject kvs)) key = v.
Proof.
  intros Hl He Hv.
  unfold getInt64FromPayload. cbn [to_interface]. rewrite lookup_object.
  unfold last_member in Hl. destruct (find _ (rev kvs)) as [[k x]|]; [|discriminate].
  injection Hl as ->. cbn [to_interface].
  apply float64_int_exact; assumption.
Qed.

Lemma getInt64FromPayload_integral_witness :
  let kvs := [(list_ascii_of_string "timestamp", JNumber 17 8);
              (list_ascii_of_string "event", JString (list_ascii_of_string "push"))] in
  last_member (list_ascii_of_string "timestamp") kvs = Some (JNumber 17 8)
  /\ ((0 <= 8 /\ 1700000000 = 17 * 10 ^ 8) \/ (8 < 0 /\ 17 = 1700000000 * 10 ^ (- 8)))
  /\ Z.abs 1700000000 <= 2 ^ 53
  /\ getInt64FromPayload (to_interface (JObject kvs)) (list_ascii_of_string "timestamp")
     = 1700000000.
Proof.
  intros kvs.
  assert (H1 : last_member (list_ascii_of_string "timestamp") kvs = Some (JNumber 17 8))
    by (vm_compute; reflexivity).
  assert (H2 : (0 <= 8 /\ 1700000000 = 17 * 10 ^ 8) \/ (8 < 0 /\ 17 = 1700000000 * 10 ^ (- 8)))
    by (left; split; [lia | reflexivity]).
  assert (H3 : Z.abs 1700000000 <= 2 ^ 53) by (cbn; lia).
  split; [exact H1 | split; [exact H2 | split; [exact H3 |]]].
  apply (getInt64FromPayload_integral kvs _ 17 8 1700000000 H1 H2 H3).
Defined.

(** A string member written in printable ASCII without quote or backslash
    is returned by [getStringFromPayload] exactly as it appears in the
    body. *)
Theorem getStringFromPayload_plain (kvs : list (list ascii * json)) (key t : list ascii) :
  last_member key kvs = Some (JString t) ->
  forallb plain_char t = true ->
  getStringFromPayload (to_interface (JObject kvs)) key = t.
Proof.
  intros Hl Ht.
  unfold getStringFromPayload. cbn [to_interface]. rewrite lookup_object.
  unfold last_member in Hl. destruct (find _ (rev kvs)) as [[k x]|]; [|discriminate].
  injection Hl as ->. cbn [snd to_interface].
  unfold unquote_text. rewrite unquote_plain_helper by exact Ht. reflexivity.
Qed.

Lemma getStringFromPayload_plain_witness :
  let kvs := [(list_ascii_of_string "event", JString (list_ascii_of_string "push"));
              (list_ascii_of_string "event", JString (list_ascii_of_string "order.created"))] in
  last_member (list_ascii_of_string "event") kvs
    = Some (JString (list_ascii_of_string "order.created"))
  /\ forallb plain_char (list_ascii_of_string "order.created") = true
  /\ getStringFromPayload (to_interface (JObject kvs)) (list_ascii_of_string "event")
     = list_ascii_of_string "order.created".
Proof.
  intros kvs.
  assert (H1 : last_member (list_ascii_of_string "event") kvs
               = Some (JString (list_ascii_of_string "order.created")))
    by (vm_compute; reflexivity).
  assert (H2 : forallb plain_char (list_ascii_of_string "order.created") = true)
    by (vm_compute; reflexivity).
  split; [exact H1 | split; [exact H2 |]].
  apply (getStringFromPayload_plain kvs _ _ H1 H2).
Defined.

(** The reply of a successful POST, decoded into an [interface{}] and read
    with the program's own helpers, gives back the assigned ID (for IDs up
    to [2^53] in magnitude, which [float64] holds exactly) and the success
    message. *)
Theorem reply_readback (n : Z) :
  Z.abs n <= 2 ^ 53 ->
  exists v, decode (encodeReceived n) = Some v
    /\ getInt64FromPayload (to_interface v) (list_ascii_of_string "id") = n
    /\ getStringFromPayload (to_interface v) (list_ascii_of_string "message")
       = list_ascii_of_string "Webhook received and stored successfully".
Proof.
  intros Hn.
  set (kvs := [(list_ascii_of_string "id", JNumber n 0);
               (list_ascii_of_string "message",
                JString (list_ascii_of_string "Webhook received and stored successfully"))]).
  exists (JObject kvs). split; [|split].
  - apply decode_encodeReceived_helper. unfold in_int_range, int_min, int_max. lia.
  - unfold getInt64FromPayload. cbn [to_interface]. rewrite lookup_object.
    replace (find _ (rev kvs)) with (Some (list_ascii_of_string "id", JNumber n 0))
      by reflexivity.
    cbn [snd to_interface]. apply float64_int_exact; [left; split; [lia | ring] | exact Hn].
  - unfold getStringFromPayload. cbn [to_interface]. rewrite lookup_object.
    replace (find _ (rev kvs))
      with (Some (list_ascii_of_string "message",
                  JString (list_ascii_of_string "Webhook received and stored successfully")))
      by reflexivity.
    cbn [snd to_interface]. unfold unquote_text.
    rewrite unquote_plain_helper by (vm_compute; reflexivity). reflexivity.
Qed.

Lemma reply_readback_witness :
  Z.abs 9 <= 2 ^ 53
  /\ exists v, decode (encodeReceived 9) = Some v
    /\ getInt64FromPayload (to_interface v) (list_ascii_of_string "id") = 9
    /\ getStringFromPayload (to_interface v) (list_ascii_of_string "message")
       = list_ascii_of_string "Webhook received and stored successfully".
Proof.
  assert (H : Z.abs 9 <= 2 ^ 53) by (cbn; lia).
  split; [exact H | apply (reply_readback 9 H)].
Defined.
